(** * agent_dev: the response formatter, the tool assembler and the
      streaming adapter of the supervisor agent

    A shallow embedding of the first-party logic of [src/agent/agent_dev.py]:
    the regex post-filter [remove_file_references], the formatter node
    [format_final_response], the tool assembler [build_domain_tools] and the
    adapter [predict_stream] / [predict].

    Text is a Python [str] whose code points lie below 256: one [ascii] per
    code point.  The character tables are those of Python's [re] and
    [str.strip] on that range. *)

From Stdlib Require Import String Ascii List Arith Lia Bool.
From stdpp Require Import base option list gmap strings.
Import ListNotations.

Local Open Scope string_scope.
Local Open Scope list_scope.
Local Open Scope nat_scope.

Set Default Proof Using "Type".
#[local] Set Warnings "-clear-no-such-hyp".

(* ------------------------------------------------------------------ *)
(** ** Characters *)

Abbreviation text := (list ascii).

Definition code (c : ascii) : nat := nat_of_ascii c.

Definition between (lo hi n : nat) : bool := (lo <=? n) && (n <=? hi).

(** [str.isspace] and the regex class [\s]. *)
Definition is_space (c : ascii) : bool :=
  let n := code c in
  between 9 13 n || between 28 32 n || (n =? 133) || (n =? 160).

(** The regex class [\w]: alphanumeric code points and the underscore. *)
Definition is_word (c : ascii) : bool :=
  let n := code c in
  between 48 57 n || between 65 90 n || between 97 122 n || (n =? 95)
  || (n =? 170) || (n =? 178) || (n =? 179) || (n =? 181) || (n =? 185)
  || (n =? 186) || between 188 190 n || between 192 214 n
  || between 216 246 n || between 248 255 n.

Definition newline : ascii := ascii_of_nat 10.

(** Lower-casing of the letters A-Z, which is all that [re.IGNORECASE] does to
    a literal of the patterns below against a code point under 256. *)
Definition lower (c : ascii) : ascii :=
  let n := code c in
  if between 65 90 n then ascii_of_nat (n + 32) else c.

(** The sets of characters one regex atom accepts. *)
Inductive charset : Type :=
| Dot                   (* .            : anything but a newline *)
| Word                  (* \w *)
| Space                 (* \s *)
| PathChar              (* [\w_\-\./] *)
| Lit (c : ascii).      (* a literal character *)

Definition path_extra (c : ascii) : bool :=
  let n := code c in
  (n =? 95) || (n =? 45) || (n =? 46) || (n =? 47).

(** [ic] is the IGNORECASE flag. *)
Definition accepts (ic : bool) (cs : charset) (c : ascii) : bool :=
  match cs with
  | Dot => negb (code c =? 10)
  | Word => is_word c
  | Space => is_space c
  | PathChar => is_word c || path_extra c
  | Lit l => if ic then code (lower c) =? code (lower l) else code c =? code l
  end.

(* ------------------------------------------------------------------ *)
(** ** The regular expressions of the module and a backtracking matcher *)

(** Only the constructs the patterns of the module use: repetition is
    always over a single-character atom. *)
Inductive regex : Type :=
| Eps
| One (cs : charset)
| Seq (r1 r2 : regex)
| Alt (r1 r2 : regex)                 (* r1|r2, r1 tried first *)
| Star (greedy : bool) (cs : charset). (* cs* and cs*? *)

Definition Plus (cs : charset) : regex := Seq (One cs) (Star true cs).
Definition Opt (r : regex) : regex := Alt r Eps.

Fixpoint lit_text (s : text) : regex :=
  match s with
  | [] => Eps
  | [c] => One (Lit c)
  | c :: s' => Seq (One (Lit c)) (lit_text s')
  end.

Definition lit (s : string) : regex := lit_text (list_ascii_of_string s).

Fixpoint seqs (rs : list regex) : regex :=
  match rs with
  | [] => Eps
  | [r] => r
  | r :: rs' => Seq r (seqs rs')
  end.

(** The continuation [k] receives what is left of the subject; the first
    success in priority order wins, as in Python's engine. *)
Fixpoint star_greedy (ic : bool) (cs : charset) (s : text)
    (k : text -> option text) : option text :=
  match s with
  | c :: s' =>
      if accepts ic cs c then
        match star_greedy ic cs s' k with
        | Some r => Some r
        | None => k s
        end
      else k s
  | [] => k []
  end.

Fixpoint star_lazy (ic : bool) (cs : charset) (s : text)
    (k : text -> option text) : option text :=
  match k s with
  | Some r => Some r
  | None =>
      match s with
      | c :: s' => if accepts ic cs c then star_lazy ic cs s' k else None
      | [] => None
      end
  end.

Fixpoint rmatch (ic : bool) (r : regex) (s : text)
    (k : text -> option text) : option text :=
  match r with
  | Eps => k s
  | One cs =>
      match s with
      | c :: s' => if accepts ic cs c then k s' else None
      | [] => None
      end
  | Seq r1 r2 => rmatch ic r1 s (fun s' => rmatch ic r2 s' k)
  | Alt r1 r2 =>
      match rmatch ic r1 s k with
      | Some t => Some t
      | None => rmatch ic r2 s k
      end
  | Star true cs => star_greedy ic cs s k
  | Star false cs => star_lazy ic cs s k
  end.

(** Length of the match of [r] at the head of [s], if it matches there. *)
Definition match_len (ic : bool) (r : regex) (s : text) : option nat :=
  match rmatch ic r s Some with
  | Some rest => Some (length s - length rest)
  | None => None
  end.

(** The same, refusing the empty match (the engine's must-advance retry
    after an empty match). *)
Definition match_len_nonempty (ic : bool) (r : regex) (s : text) : option nat :=
  match rmatch ic r s
          (fun rest => if length rest <? length s then Some rest else None) with
  | Some rest => Some (length s - length rest)
  | None => None
  end.

(** [re.search]: offset and length of the leftmost match. *)
Fixpoint re_search (ic : bool) (r : regex) (s : text) : option (nat * nat) :=
  match match_len ic r s with
  | Some n => Some (0, n)
  | None =>
      match s with
      | _ :: s' =>
          match re_search ic r s' with
          | Some (i, n) => Some (S i, n)
          | None => None
          end
      | [] => None
      end
  end.

(** [re.sub] with a literal replacement.  [skip] counts the characters of
    the current match that are still to be dropped. *)
Fixpoint sub_scan (ic : bool) (r : regex) (repl : text) (s : text)
    (skip : nat) : text :=
  match skip with
  | S n =>
      match s with
      | _ :: s' => sub_scan ic r repl s' n
      | [] => []
      end
  | O =>
      match s with
      | [] =>
          match match_len ic r [] with
          | Some _ => repl
          | None => []
          end
      | c :: s' =>
          match match_len ic r s with
          | Some (S n) => repl ++ sub_scan ic r repl s' n
          | Some O =>
              repl ++
              match match_len_nonempty ic r s with
              | Some (S n) => repl ++ sub_scan ic r repl s' n
              | _ => c :: sub_scan ic r repl s' 0
              end
          | None => c :: sub_scan ic r repl s' 0
          end
      end
  end.

Definition re_sub (ic : bool) (r : regex) (repl : text) (s : text) : text :=
  sub_scan ic r repl s 0.

(** [str.strip()]. *)
Fixpoint lstrip (s : text) : text :=
  match s with
  | c :: s' => if is_space c then lstrip s' else s
  | [] => []
  end.

Definition rstrip (s : text) : text := rev (lstrip (rev s)).

Definition strip (s : text) : text := rstrip (lstrip s).

(* ------------------------------------------------------------------ *)
(** ** Formatting helper functions *)

(** The tail every file pattern shares: [[\w_\-\./]+\.\w+]. *)
Definition file_path : regex := seqs [Plus PathChar; One (Lit "."); Plus Word].

Definition I_have : regex :=
  Seq (lit "I") (Alt (lit "'ve") (lit " have")).

Definition I_will : regex :=
  Seq (lit "I") (Alt (lit "'ll") (lit " will")).

Definition lazy_any : regex := Star false Dot.

Definition patterns : list regex :=
  [ seqs [I_have; lit " saved"; lazy_any; lit "to "; file_path];
    seqs [I_will; lit " save"; lazy_any; lit "to "; file_path];
    seqs [lit "Let me save"; lazy_any; lit "to "; file_path];
    seqs [I_have; lit " written"; lazy_any; lit "to "; file_path];
    seqs [lit "Saved to "; file_path];
    seqs [lit "Writing to "; file_path];
    seqs [I_will; lit " write"; lazy_any; lit "to "; file_path];
    seqs [lit "Saving"; lazy_any; lit "to "; file_path];
    seqs [lit "Reading from "; file_path];
    seqs [I_have; lit " read"; lazy_any; lit "from "; file_path];
    seqs [lit "Let me read"; lazy_any; lit "from "; file_path];
    seqs [lit "The file "; file_path; lit " contains"];
    seqs [lit "From "; file_path; lit ":"];
    seqs [I_have; lit " saved"; lazy_any; lit "to /large_tool_results/";
          Plus PathChar];
    seqs [lit "The "; Opt (lit "full "); lit "result"; Opt (lit "s"); lit " ";
          Alt (lit "were") (Alt (lit "was") (lit "has been")); lit " ";
          Opt (lit "automatically "); lit "saved to /large_tool_results/";
          Plus PathChar] ].

(** [\n\s*\n\s*\n] *)
Definition blank_lines : regex :=
  seqs [One (Lit newline); Star true Space; One (Lit newline);
        Star true Space; One (Lit newline)].

(** The loop over [patterns]: each pattern is substituted away in turn. *)
Definition strip_patterns (ps : list regex) (cleaned : text) : text :=
  fold_left (fun cleaned pattern => re_sub true pattern [] cleaned) ps cleaned.

(** Lines 74-75: blank-line runs collapsed, then [strip()]. *)
Definition normalize_whitespace (cleaned : text) : text :=
  strip (re_sub false blank_lines [newline; newline] cleaned).

Definition remove_file_references_text (content : text) : text :=
  match content with
  | [] => content
  | _ => normalize_whitespace (strip_patterns patterns content)
  end.

Definition remove_file_references (content : string) : string :=
  string_of_list_ascii
    (remove_file_references_text (list_ascii_of_string content)).

Definition apply_format_template (content : string) : string :=
  string_of_list_ascii (strip (list_ascii_of_string content)).

(* ------------------------------------------------------------------ *)
(** ** Messages and the objects they live in *)

Record ToolCall : Type := mkToolCall {
  tc_id : string;
  tc_name : string;
  tc_args : string          (* the text [json.dumps] gives for the arguments *)
}.

(** A LangChain message as [model_dump] shows it.  [tool_calls] is read on
    "ai" messages only and [tool_call_id] on "tool" messages only. *)
Record Message : Type := mkMessage {
  msg_type : string;
  msg_id : option string;
  content : string;
  tool_calls : list ToolCall;
  tool_call_id : string
}.

(** Messages are objects: lists hold references, and a write through one
    reference is seen through every other. *)
Definition ref : Type := nat.
Definition store : Type := ref -> Message.

Definition set_content (st : store) (r : ref) (c : string) : store :=
  fun r' =>
    if r' =? r then
      let m := st r' in
      mkMessage (msg_type m) (msg_id m) c (tool_calls m) (tool_call_id m)
    else st r'.

Abbreviation files_map := (gmap string string).

(** What a node contributes to an update event: its "messages" and, when the
    key is present, its "files". *)
Record node_data : Type := mkNodeData {
  messages : list ref;
  files : option files_map
}.

(* ------------------------------------------------------------------ *)
(** ** The formatter node *)

(** [for msg in reversed(messages): if msg.type == "ai": ... break] *)
Definition last_ai_message (st : store) (msgs : list ref) : option ref :=
  List.find (fun r => String.eqb (msg_type (st r)) "ai") (rev msgs).

Definition format_final_response (st : store) (state : node_data)
    : store * node_data :=
  let msgs := messages state in
  let st' :=
    match last_ai_message st msgs with
    | Some r =>
        match content (st r) with
        | EmptyString => st
        | c => set_content st r (apply_format_template (remove_file_references c))
        end
    | None => st
    end in
  (st', mkNodeData msgs None).

(* ------------------------------------------------------------------ *)
(** ** Build domain tools *)

Inductive SubAgentConfig : Type :=
| ServedSubAgent (endpoint_name name task description : string)
| Genie (space_id name task description : string).

Record InCodeSubAgent : Type := mkInCodeSubAgent {
  tools : list string;
  in_code_name : string;
  in_code_description : string
}.

Inductive Agent : Type :=
| GenieAgent (genie_space_id genie_agent_name description : string)
| ReactAgent (endpoint : string) (use_responses_api : bool) (name : string).

(** A tool function with the values its default arguments captured when the
    [def] was executed. *)
Inductive ToolFunction : Type :=
| uc_function (function_name : string)
| genie_query_tool (_agent : Agent)
| served_agent_tool (_agent : Agent) (_name : string).

Record Tool : Type := mkTool {
  tool_name : string;
  tool_function : ToolFunction
}.

Definition config_name (cfg : SubAgentConfig) : string :=
  match cfg with
  | ServedSubAgent _ name _ _ => name
  | Genie _ name _ _ => name
  end.

(** [str.replace(old, new)] for one-character [old] and [new]. *)
Fixpoint replace (old new : ascii) (s : string) : string :=
  match s with
  | EmptyString => EmptyString
  | String c s' =>
      String (if Ascii.eqb c old then new else c) (replace old new s')
  end.

Fixpoint starts_with (p s : string) : bool :=
  match p, s with
  | EmptyString, _ => true
  | String a p', String b s' => Ascii.eqb a b && starts_with p' s'
  | String _ _, EmptyString => false
  end.

(** [needle in hay] on strings. *)
Fixpoint contains (needle hay : string) : bool :=
  starts_with needle hay ||
  match hay with
  | EmptyString => false
  | String _ hay' => contains needle hay'
  end.

(** The local variables of [build_domain_tools] that the second loop
    rebinds on every iteration. *)
Record Locals : Type := mkLocals {
  agent_config : option SubAgentConfig;
  genie_agent : option Agent;
  served_agent : option Agent;
  domain_tools : list Tool
}.

Definition normalized_name (cfg : SubAgentConfig) : string :=
  replace "-" "_" (replace " " "_" (config_name cfg)).

(** One iteration of [for agent_config in externally_served_agents]. *)
Definition delegation_step (L : Locals) (cfg : SubAgentConfig) : Locals :=
  match cfg with
  | Genie space_id name _ description =>
      let agent := GenieAgent space_id name description in
      let t := mkTool (normalized_name cfg) (genie_query_tool agent) in
      mkLocals (Some cfg) (Some agent) (served_agent L) (domain_tools L ++ [t])
  | ServedSubAgent endpoint_name name task _ =>
      let agent := ReactAgent endpoint_name (contains "responses" task) name in
      let t := mkTool (normalized_name cfg) (served_agent_tool agent name) in
      mkLocals (Some cfg) (genie_agent L) (Some agent) (domain_tools L ++ [t])
  end.

(** [UCFunctionToolkit] is library code: [toolkit names] stands for the
    [.tools] of the toolkit built from [names]. *)
Definition build_domain_tools (toolkit : list string -> list Tool)
    (externally_served_agents : list SubAgentConfig)
    (in_code_agents : list InCodeSubAgent) : list Tool :=
  let uc :=
    fold_left (fun acc cfg => acc ++ toolkit (tools cfg)) in_code_agents [] in
  domain_tools
    (fold_left delegation_step externally_served_agents
       (mkLocals None None None uc)).

(** The call a delegation tool makes: the agent it invokes and the
    [{"messages": [{"role": "user", "content": task}]}] payload. *)
Record Delegation : Type := mkDelegation {
  callee : Agent;
  payload : list (string * string)
}.

Definition delegation_of (t : Tool) (task : string) : option Delegation :=
  match tool_function t with
  | uc_function _ => None
  | genie_query_tool _agent => Some (mkDelegation _agent [("user", task)])
  | served_agent_tool _agent _ => Some (mkDelegation _agent [("user", task)])
  end.

(** Running the tool against [invoke], which gives the contents of the
    messages the agent answers with; [result["messages"][-1].content]. *)
Definition call_tool (invoke : Agent -> list (string * string) -> list string)
    (t : Tool) (task : string) : option string :=
  match delegation_of t task with
  | Some d => list.last (invoke (callee d) (payload d))
  | None => None
  end.

(* ------------------------------------------------------------------ *)
(** ** The Responses adapter *)

(** [message.get("id") or str(uuid4())]: the n-th fresh identifier of the
    invocation is [Uuid4 n]. *)
Inductive item_id : Type :=
| MessageId (s : string)
| Uuid4 (n : nat).

Inductive OutputItem : Type :=
| text_output_item (text : string) (id : item_id)
| function_call_item (id : item_id) (call_id name arguments : string)
| function_call_output_item (call_id output : string).

Record ResponsesAgentStreamEvent : Type := mkStreamEvent {
  event_type : string;
  item : OutputItem
}.

Definition output_item_done (i : OutputItem) : ResponsesAgentStreamEvent :=
  mkStreamEvent "response.output_item.done" i.

Definition id_or_uuid (m : Message) (n : nat) : item_id * nat :=
  match msg_id m with
  | Some (String c s) => (MessageId (String c s), n)
  | _ => (Uuid4 n, S n)
  end.

Fixpoint function_call_items (m : Message) (calls : list ToolCall) (n : nat)
    : list OutputItem * nat :=
  match calls with
  | [] => ([], n)
  | tc :: calls' =>
      let (i, n1) := id_or_uuid m n in
      let (rest, n2) := function_call_items m calls' n1 in
      (function_call_item i (tc_id tc) (tc_name tc) (tc_args tc) :: rest, n2)
  end.

(** The second component is the number of fresh identifiers drawn so far. *)
Definition _langchain_to_responses (message : Message) (n : nat)
    : list OutputItem * nat :=
  if String.eqb (msg_type message) "ai" then
    let (out1, n1) :=
      match content message with
      | EmptyString => ([], n)
      | c => let (i, n') := id_or_uuid message n in ([text_output_item c i], n')
      end in
    let (out2, n2) := function_call_items message (tool_calls message) n1 in
    (out1 ++ out2, n2)
  else if String.eqb (msg_type message) "tool" then
    ([function_call_output_item (tool_call_id message) (content message)], n)
  else ([], n).

(** What the adapter does, in order: a node-name announcement, or the
    surfacing of one message (with the events yielded for it, possibly
    none).  The labels record where each yielded event comes from. *)
Inductive emission : Type :=
| Announced (node_name : string) (e : ResponsesAgentStreamEvent)
| Surfaced (mid : option string) (es : list ResponsesAgentStreamEvent).

Definition yielded_by (e : emission) : list ResponsesAgentStreamEvent :=
  match e with
  | Announced _ ev => [ev]
  | Surfaced _ es => es
  end.

Record adapter : Type := mkAdapter {
  first_name : bool;
  seen_ids : gset (option string);
  uuids : nat;
  _final_state : option node_data
}.

(** [for msg in node_data["messages"]: if msg.id not in seen_ids: ...] *)
Fixpoint surface_messages (st : store) (msgs : list ref) (a : adapter)
    : adapter * list emission :=
  match msgs with
  | [] => (a, [])
  | r :: msgs' =>
      let msg := st r in
      if bool_decide (msg_id msg ∈ seen_ids a) then surface_messages st msgs' a
      else
        let (items, n) := _langchain_to_responses msg (uuids a) in
        let a1 := mkAdapter (first_name a) ({[ msg_id msg ]} ∪ seen_ids a) n
                    (_final_state a) in
        let (a2, log) := surface_messages st msgs' a1 in
        (a2, Surfaced (msg_id msg) (map output_item_done items) :: log)
  end.

(** [for node_data in events.values(): ...] *)
Fixpoint surface_nodes (st : store) (nodes : list (string * node_data))
    (a : adapter) : adapter * list emission :=
  match nodes with
  | [] => (a, [])
  | (_, nd) :: nodes' =>
      let a0 := mkAdapter (first_name a) (seen_ids a) (uuids a) (Some nd) in
      let (a1, log1) := surface_messages st (messages nd) a0 in
      let (a2, log2) := surface_nodes st nodes' a1 in
      (a2, log1 ++ log2)
  end.

(** One element of what [self.agent.stream(...)] generates: the graph
    first [runs] (nodes may write to message objects), then yields
    [(event_name, events)]; [events] is a dict in insertion order. *)
Record chunk : Type := mkChunk {
  runs : store -> store;
  event_name : string;
  events : list (string * node_data)
}.

Inductive completion : Type :=
| Exhausted            (* the upstream generator ended *)
| IndexError.          (* tuple(events.keys())[0] on an empty dict *)

Record run_result : Type := mkRun {
  log : list emission;
  final : adapter;
  final_store : store;
  outcome : completion
}.

(** The announcement part of one iteration; [None] is the IndexError. *)
Definition announce (a : adapter) (c : chunk) : option (adapter * list emission) :=
  if first_name a then Some (a, [])
  else
    match events c with
    | [] => None
    | (node_name, _) :: _ =>
        if String.eqb node_name "formatter" then Some (a, [])
        else
          let text := String.append "<name>" (String.append node_name "</name>") in
          let ev := output_item_done (text_output_item text (Uuid4 (uuids a))) in
          Some (mkAdapter (first_name a) (seen_ids a) (S (uuids a))
                  (_final_state a),
                [Announced node_name ev])
    end.

Definition clear_first_name (a : adapter) : adapter :=
  mkAdapter false (seen_ids a) (uuids a) (_final_state a).

(** The body of [for event_name, events in self.agent.stream(...)]. *)
Fixpoint stream_loop (gen : list chunk) (st : store) (a : adapter) : run_result :=
  match gen with
  | [] => mkRun [] a st Exhausted
  | c :: gen' =>
      let st1 := runs c st in
      if String.eqb (event_name c) "updates" then
        match announce a c with
        | None => mkRun [] a st1 IndexError
        | Some (a1, log1) =>
            let (a2, log2) := surface_nodes st1 (events c) a1 in
            let r := stream_loop gen' st1 (clear_first_name a2) in
            mkRun (log1 ++ log2 ++ log r) (final r) (final_store r) (outcome r)
        end
      else stream_loop gen' st1 (clear_first_name a)
  end.

(** [self] carries [_final_state] from one call to the next. *)
Definition predict_stream_run (self_final_state : option node_data)
    (gen : list chunk) (st : store) : run_result :=
  stream_loop gen st (mkAdapter true ∅ 0 self_final_state).

(** The events the generator yields. *)
Definition predict_stream (self_final_state : option node_data)
    (gen : list chunk) (st : store) : list ResponsesAgentStreamEvent :=
  concat (map yielded_by (log (predict_stream_run self_final_state gen st))).

(** The stream of the graph [create_supervisor_with_formatter] compiles:
    the supervisor node, then the formatter node on [state], the graph's
    state once the supervisor's update is merged in. *)
Definition supervisor_with_formatter (supervisor : store -> store)
    (update state : node_data) : list chunk :=
  [ mkChunk supervisor "updates" [("supervisor", update)];
    mkChunk (fun st => fst (format_final_response st state)) "updates"
      [("formatter", mkNodeData (messages state) None)] ].

(* ------------------------------------------------------------------ *)
(** ** predict *)

Inductive pyvalue : Type :=
| PyStr (s : string)
| PyFiles (f : files_map).

Record ResponsesAgentResponse : Type := mkResponse {
  output : list OutputItem;
  custom_outputs : gmap string pyvalue
}.

Definition final_files (final_state : option node_data) : files_map :=
  match final_state with
  | Some nd => default ∅ (files nd)
  | None => ∅
  end.

(** [None] when [predict_stream] raised. *)
Definition predict (self_final_state : option node_data) (gen : list chunk)
    (st : store) (custom_inputs : option (gmap string pyvalue))
    : option ResponsesAgentResponse :=
  let r := predict_stream_run self_final_state gen st in
  match outcome r with
  | IndexError => None
  | Exhausted =>
      let outputs :=
        map item
          (List.filter (fun e => String.eqb (event_type e) "response.output_item.done")
             (concat (map yielded_by (log r)))) in
      Some (mkResponse outputs
              (<["files" := PyFiles (final_files (_final_state (final r)))]>
                 (default ∅ custom_inputs)))
  end.

(* ------------------------------------------------------------------ *)
(** ** The post-model hook of served agents and the module-level tool list *)

(** The content of a message before [stringify_content] has run: a string
    or a list of content blocks. *)
Inductive message_content (Block : Type) : Type :=
| StrContent (s : string)
| ListContent (blocks : list Block).

Arguments StrContent {Block} s.
Arguments ListContent {Block} blocks.

(** [json_dumps] stands for [json.dumps(_, indent=4)].  [None] is the
    IndexError of [msgs[-1]] on an empty list. *)
Definition stringify_content {Block : Type} (json_dumps : list Block -> string)
    (st : ref -> message_content Block) (msgs : list ref)
    : option ((ref -> message_content Block) * list ref) :=
  match list.last msgs with
  | None => None
  | Some r =>
      match st r with
      | ListContent blocks =>
          Some (fun r' => if r' =? r then StrContent (json_dumps blocks) else st r',
                msgs)
      | StrContent _ => Some (st, msgs)
      end
  end.

(** Lines 524-527: the UC function tools registered as resources. *)
Definition TOOLS (toolkit : list string -> list Tool)
    (IN_CODE_AGENTS : list InCodeSubAgent) : list Tool :=
  fold_left (fun TOOLS _agent_cfg => TOOLS ++ toolkit (tools _agent_cfg))
    IN_CODE_AGENTS [].

(* ------------------------------------------------------------------ *)
(** ** Specification-side notions *)

(** No pattern of [ps] matches anywhere in [s]. *)
Definition no_pattern_matches (ps : list regex) (s : text) : Prop :=
  Forall (fun p => re_search true p s = None) ps.

(** Number of newlines in the leading whitespace run of [s]. *)
Fixpoint run_newlines (s : text) : nat :=
  match s with
  | c :: s' =>
      if is_space c then (if code c =? 10 then 1 else 0) + run_newlines s'
      else 0
  | [] => 0
  end.

(** What follows the last newline of the leading whitespace run. *)
Fixpoint after_last_newline (s : text) : text :=
  match s with
  | c :: s' =>
      if is_space c then
        if 1 <=? run_newlines s' then after_last_newline s'
        else if code c =? 10 then s' else s
      else s
  | [] => []
  end.

(** No whitespace run holds three newlines. *)
Fixpoint blank_runs_collapsed (s : text) : Prop :=
  match s with
  | [] => True
  | _ :: s' => run_newlines s <= 2 /\ blank_runs_collapsed s'
  end.

(** Following the spec's words for the tool name: whitespace and hyphens
    become underscores. *)
Definition whitespace_hyphens_to_underscores (name : string) : string :=
  string_of_list_ascii
    (map (fun c => if is_space c || Ascii.eqb c "-" then "_"%char else c)
       (list_ascii_of_string name)).

(** What the two [replace] calls amount to: the space character and the
    hyphen become underscores. *)
Definition spaces_hyphens_to_underscores (name : string) : string :=
  string_of_list_ascii
    (map (fun c => if Ascii.eqb c " " || Ascii.eqb c "-" then "_"%char else c)
       (list_ascii_of_string name)).

(** The tools of the first loop. *)
Definition uc_tools (toolkit : list string -> list Tool)
    (in_code_agents : list InCodeSubAgent) : list Tool :=
  concat (map (fun cfg => toolkit (tools cfg)) in_code_agents).

(** The agent the loop body constructs from one descriptor. *)
Definition agent_for (cfg : SubAgentConfig) : Agent :=
  match cfg with
  | Genie space_id name _ description => GenieAgent space_id name description
  | ServedSubAgent endpoint_name name task _ =>
      ReactAgent endpoint_name (contains "responses" task) name
  end.

Definition is_ai (st : store) (r : ref) : Prop := msg_type (st r) = "ai".

(** Reading the adapter's record. *)
Definition surfaced_ids (l : list emission) : list (option string) :=
  flat_map (fun e => match e with Surfaced mid _ => [mid] | Announced _ _ => [] end) l.

Definition derived_from (mid : option string) (l : list emission)
    : list ResponsesAgentStreamEvent :=
  flat_map
    (fun e =>
       match e with
       | Surfaced j es => if decide (j = mid) then es else []
       | Announced _ _ => []
       end) l.

Definition announced (l : list emission) : list string :=
  flat_map (fun e => match e with Announced n _ => [n] | Surfaced _ _ => [] end) l.

Definition is_update (c : chunk) : bool := String.eqb (event_name c) "updates".

(** The node an update event originates from: the first key of the dict. *)
Definition origin (c : chunk) : option string := head (map fst (events c)).


(** Every event names at least one node. *)
Definition names_a_node (gen : list chunk) : Prop :=
  Forall (fun c => events c <> []) gen.

(** The node data the loop retains last, [prior] when it retains none. *)
Definition last_retained (prior : option node_data) (gen : list chunk)
    : option node_data :=
  match list.last
          (concat (map (fun c => if is_update c then map snd (events c) else [])
                     gen)) with
  | Some nd => Some nd
  | None => prior
  end.

(** An emission is well labelled: an announcement names a node other than
    the formatter and carries its "<name>" text; a surfacing carries the
    translation of one message with the recorded identifier. *)
Definition well_labelled (e : emission) : Prop :=
  match e with
  | Announced node e =>
      node <> "formatter" /\
      exists k,
        e = output_item_done
              (text_output_item
                 (String.append "<name>" (String.append node "</name>"))
                 (Uuid4 k))
  | Surfaced mid es =>
      exists m n,
        msg_id m = mid /\
        es = map output_item_done (fst (_langchain_to_responses m n))
  end.

(** How a stretch [l] of the record relates the seen set before it, [s],
    to the seen set after it, [s']. *)
Definition grows (s s' : gset (option string)) (l : list emission) : Prop :=
  s ⊆ s' /\
  NoDup (surfaced_ids l) /\
  (forall mid, mid ∈ surfaced_ids l -> (mid ∉ s) /\ (mid ∈ s')) /\
  Forall well_labelled l.

(** A sample conversation: a question, a tool round trip, and a final
    answer that mentions a file. *)
Definition sample_store : store :=
  fun r =>
    match r with
    | 0 => mkMessage "human" (Some "u1") "Which accounts grew?" [] ""
    | 1 => mkMessage "ai" (Some "a1") "Let me look."
             [mkToolCall "call_1" "logfood_genie" "{}"] ""
    | 2 => mkMessage "tool" (Some "t1") "42 rows" [] "call_1"
    | _ => mkMessage "ai" (Some "a2") "I've saved it to report.csv. Thanks!" [] ""
    end.

Definition sample_update : node_data :=
  mkNodeData [0; 1; 2; 3] (Some {[ "/report.csv" := "account,dollars" ]}).

Definition sample_stream : list chunk :=
  supervisor_with_formatter (fun st => st) sample_update sample_update.


(** A conversation whose last assistant message is empty. *)
Definition empty_answer_store : store :=
  fun r =>
    match r with
    | 0 => mkMessage "human" (Some "u1") "hello" [] ""
    | _ => mkMessage "ai" (Some "a1") "" [] ""
    end.

(** "Account", a tab, "Lookup". *)
Definition tabbed_name : string := String.append "Account" (String "009" "Lookup").

(** Number of newline characters in a text. *)
Definition newlines (w : text) : nat :=
  length (List.filter (fun c => code c =? 10) w).

(** The identifier an output item carries, if its kind carries one. *)
Definition item_id_of (i : OutputItem) : option item_id :=
  match i with
  | text_output_item _ id => Some id
  | function_call_item id _ _ _ => Some id
  | function_call_output_item _ _ => None
  end.

(** The call a function-call item reports. *)
Definition reported_call (i : OutputItem) : option ToolCall :=
  match i with
  | function_call_item _ call_id name arguments =>
      Some (mkToolCall call_id name arguments)
  | _ => None
  end.

(** The message objects as they are when the last chunk of [gen] is
    yielded. *)
Definition store_after (gen : list chunk) (st : store) : store :=
  fold_left (fun st c => runs c st) gen st.

(** The supervisor's event alone. *)
Definition supervisor_only (supervisor : store -> store) (update : node_data)
    : list chunk :=
  [ mkChunk supervisor "updates" [("supervisor", update)] ].

(** The content with the letters A-Z lower-cased. *)
Definition lower_string (s : string) : string :=
  string_of_list_ascii (map lower (list_ascii_of_string s)).

(** A regex none of whose atoms accepts a newline. *)
Definition newline_free_set (cs : charset) : bool :=
  match cs with
  | Space => false
  | Lit c => negb (code c =? 10)
  | Dot | Word | PathChar => true
  end.

Fixpoint single_line (r : regex) : bool :=
  match r with
  | Eps => true
  | One cs => newline_free_set cs
  | Seq r1 r2 => single_line r1 && single_line r2
  | Alt r1 r2 => single_line r1 && single_line r2
  | Star _ cs => newline_free_set cs
  end.

(* ------------------------------------------------------------------ *)
(** ** Substrings *)

Lemma starts_with_spec p s :
  starts_with p s = true <-> exists post, s = String.append p post.
Proof.
  revert s. induction p as [|a p IH]; intros s; simpl.
  - split; [intros _; exists s; reflexivity | reflexivity].
  - destruct s as [|b s]; simpl.
    + split; [discriminate | intros [post H]; discriminate].
    + rewrite andb_true_iff, IH, Ascii.eqb_eq. split.
      * intros [-> [post ->]]. exists post. reflexivity.
      * intros [post H]. injection H as -> ->. split; [reflexivity | eauto].
Qed.

Lemma contains_spec needle hay :
  contains needle hay = true <->
  exists pre post, hay = String.append pre (String.append needle post).
Proof.
  induction hay as [|c hay IH].
  - simpl. rewrite orb_false_r, starts_with_spec. split.
    + intros [post H]. exists EmptyString, post. exact H.
    + intros [pre [post H]]. destruct pre; simpl in H.
      * exists post. exact H.
      * discriminate.
  - simpl. rewrite orb_true_iff, starts_with_spec, IH. split.
    + intros [[post H] | [pre [post H]]].
      * exists EmptyString, post. exact H.
      * exists (String c pre), post. simpl. rewrite H. reflexivity.
    + intros [pre [post H]]. destruct pre as [|d pre]; simpl in H.
      * left. exists post. exact H.
      * right. injection H as -> ->. eauto.
Qed.

(* ------------------------------------------------------------------ *)
(** ** Substitution where nothing matches *)

Lemma re_sub_no_match ic r repl s :
  re_search ic r s = None -> re_sub ic r repl s = s.
Proof.
  unfold re_sub. induction s as [|c s IH]; simpl.
  - destruct (match_len ic r []); [discriminate | reflexivity].
  - destruct (match_len ic r (c :: s)); [discriminate |].
    destruct (re_search ic r s) as [[i n]|]; [discriminate |].
    intros _. rewrite IH; reflexivity.
Qed.

Lemma strip_patterns_no_match ps s :
  no_pattern_matches ps s -> strip_patterns ps s = s.
Proof.
  unfold no_pattern_matches, strip_patterns.
  induction ps as [|p ps IH]; simpl; intros H.
  - reflexivity.
  - inversion H as [|? ? Hp Hps]; subst.
    rewrite (re_sub_no_match _ _ _ _ Hp). apply IH, Hps.
Qed.

(** C7. When none of the file-operation patterns matches anywhere in the
    content, [remove_file_references] returns the content with only the
    whitespace normalisation applied: blank-line runs collapsed, then
    leading and trailing whitespace stripped. *)
Theorem remove_file_references_no_pattern (content : string) :
  no_pattern_matches patterns (list_ascii_of_string content) ->
  remove_file_references content =
  string_of_list_ascii (normalize_whitespace (list_ascii_of_string content)).
Proof.
  intros H. unfold remove_file_references, remove_file_references_text.
  destruct (list_ascii_of_string content) as [|c s] eqn:E.
  - reflexivity.
  - rewrite (strip_patterns_no_match _ _ H). reflexivity.
Qed.

Lemma remove_file_references_no_pattern_witness :
  no_pattern_matches patterns
    (list_ascii_of_string "  Revenue grew.



Costs fell.  ") /\
  remove_file_references "  Revenue grew.



Costs fell.  " = "Revenue grew.

Costs fell.".
Proof.
  assert (H : no_pattern_matches patterns
    (list_ascii_of_string "  Revenue grew.



Costs fell.  ")).
  { unfold no_pattern_matches. repeat constructor. }
  split; [exact H |].
  rewrite (remove_file_references_no_pattern _ H). vm_compute. reflexivity.
Defined.

(** C9. Cleaning "I've saved it to report.csv. Thanks!" leaves
    ". Thanks!", in which "report.csv" does not occur. *)
Theorem report_csv_removed :
  remove_file_references "I've saved it to report.csv. Thanks!" = ". Thanks!" /\
  ~ exists pre post,
      remove_file_references "I've saved it to report.csv. Thanks!" =
      String.append pre (String.append "report.csv" post).
Proof.
  split; [vm_compute; reflexivity |].
  intros H. apply contains_spec in H. vm_compute in H. discriminate.
Qed.

(** C3, as stated, fails: removing a match can join the text around it
    into a new match, which only a second application removes. *)
Lemma remove_file_references_not_idempotent :
  remove_file_references "Saved toSaved to a.b c.d" = "Saved to c.d" /\
  remove_file_references (remove_file_references "Saved toSaved to a.b c.d") = "" /\
  remove_file_references (remove_file_references "Saved toSaved to a.b c.d") <>
  remove_file_references "Saved toSaved to a.b c.d".
Proof.
  split; [vm_compute; reflexivity |].
  split; [vm_compute; reflexivity |].
  vm_compute. discriminate.
Qed.

(* ------------------------------------------------------------------ *)
(** ** The blank-line pattern *)

Lemma code_newline c : (code c =? 10) = true -> c = newline.
Proof.
  intros H. apply Nat.eqb_eq in H. unfold code in H.
  rewrite <- (ascii_nat_embedding c), H. reflexivity.
Qed.

Lemma newline_is_space c : (code c =? 10) = true -> is_space c = true.
Proof. intros H. rewrite (code_newline c H). reflexivity. Qed.

Lemma accepts_newline c : accepts false (Lit newline) c = (code c =? 10).
Proof. reflexivity. Qed.

Lemma not_space_not_newline c : is_space c = false -> (code c =? 10) = false.
Proof.
  intros H. destruct (code c =? 10) eqn:E; [|reflexivity].
  rewrite (newline_is_space c E) in H. discriminate.
Qed.

(** [\s*\n] against a subject: the star gives back up to the last newline
    of the run. *)
Lemma star_then_newline s :
  star_greedy false Space s
    (fun s1 => rmatch false (One (Lit newline)) s1 Some) =
  if 1 <=? run_newlines s then Some (after_last_newline s) else None.
Proof.
  induction s as [|c s IH]; [reflexivity |].
  cbn [star_greedy accepts run_newlines after_last_newline].
  destruct (is_space c) eqn:Hs.
  - rewrite IH. destruct (1 <=? run_newlines s) eqn:Hn.
    + apply Nat.leb_le in Hn.
      destruct (1 <=? _) eqn:E; [reflexivity |].
      apply Nat.leb_gt in E. lia.
    + apply Nat.leb_gt in Hn. cbn [rmatch]. rewrite accepts_newline.
      destruct (code c =? 10) eqn:Hc.
      * replace (run_newlines s) with 0 by lia. reflexivity.
      * replace (run_newlines s) with 0 by lia. reflexivity.
  - cbn [rmatch]. rewrite accepts_newline, (not_space_not_newline c Hs).
    reflexivity.
Qed.

(** [\s*\n\s*\n] needs two newlines in the run. *)
Lemma star_then_two_newlines s :
  star_greedy false Space s
    (fun s1 =>
       rmatch false (One (Lit newline)) s1
         (fun s2 =>
            star_greedy false Space s2
              (fun s3 => rmatch false (One (Lit newline)) s3 Some))) =
  if 2 <=? run_newlines s then Some (after_last_newline s) else None.
Proof.
  induction s as [|c s IH]; [reflexivity |].
  cbn [star_greedy accepts run_newlines after_last_newline].
  destruct (is_space c) eqn:Hs.
  - rewrite IH. destruct (2 <=? run_newlines s) eqn:Hn.
    + apply Nat.leb_le in Hn.
      destruct (2 <=? _) eqn:E; [|apply Nat.leb_gt in E; lia].
      destruct (1 <=? run_newlines s) eqn:E1; [reflexivity |].
      apply Nat.leb_gt in E1. lia.
    + apply Nat.leb_gt in Hn. cbn [rmatch]. rewrite accepts_newline.
      destruct (code c =? 10) eqn:Hc.
      * rewrite star_then_newline.
        destruct (1 <=? run_newlines s) eqn:E1.
        -- apply Nat.leb_le in E1.
           replace (run_newlines s) with 1 by lia. reflexivity.
        -- apply Nat.leb_gt in E1.
           replace (run_newlines s) with 0 by lia. reflexivity.
      * destruct (2 <=? _) eqn:E; [apply Nat.leb_le in E; lia | reflexivity].
  - cbn [rmatch]. rewrite accepts_newline, (not_space_not_newline c Hs).
    reflexivity.
Qed.

Lemma blank_lines_match s :
  rmatch false blank_lines s Some =
  match s with
  | c :: s1 =>
      if (code c =? 10) && (2 <=? run_newlines s1)
      then Some (after_last_newline s1) else None
  | [] => None
  end.
Proof.
  destruct s as [|c s1]; [reflexivity |].
  change (rmatch false blank_lines (c :: s1) Some) with
    (if accepts false (Lit newline) c then
       star_greedy false Space s1
         (fun s1 =>
            rmatch false (One (Lit newline)) s1
              (fun s2 =>
                 star_greedy false Space s2
                   (fun s3 => rmatch false (One (Lit newline)) s3 Some)))
     else None).
  rewrite accepts_newline, star_then_two_newlines.
  destruct (code c =? 10), (2 <=? run_newlines s1); reflexivity.
Qed.

Lemma after_last_newline_suffix s :
  exists pre, s = pre ++ after_last_newline s.
Proof.
  induction s as [|c s [pre IH]]; [exists []; reflexivity |].
  cbn [after_last_newline].
  destruct (is_space c); [|exists []; reflexivity].
  destruct (1 <=? run_newlines s).
  - exists (c :: pre). simpl. rewrite <- IH. reflexivity.
  - destruct (code c =? 10); [exists [c] | exists []]; reflexivity.
Qed.

Lemma after_last_newline_run s :
  1 <= run_newlines s -> run_newlines (after_last_newline s) = 0.
Proof.
  induction s as [|c s IH]; cbn [run_newlines after_last_newline]; [lia |].
  destruct (is_space c) eqn:Hs; [|lia].
  destruct (1 <=? run_newlines s) eqn:E.
  - intros _. apply IH, Nat.leb_le, E.
  - apply Nat.leb_gt in E. destruct (code c =? 10); [lia | lia].
Qed.

(* ------------------------------------------------------------------ *)
(** ** Scanning *)

Lemma sub_scan_skip ic r repl s n :
  n <= length s ->
  sub_scan ic r repl s n = sub_scan ic r repl (skipn n s) 0.
Proof.
  revert s. induction n as [|n IH]; intros s Hn; [reflexivity |].
  destruct s as [|c s]; simpl in Hn; [lia |].
  simpl. apply IH. lia.
Qed.

Lemma sub_scan_suffix ic r repl pre rest :
  sub_scan ic r repl (pre ++ rest) (length (pre ++ rest) - length rest) =
  sub_scan ic r repl rest 0.
Proof.
  rewrite sub_scan_skip by lia.
  rewrite length_app. replace (length pre + length rest - length rest)
    with (length pre) by lia.
  rewrite skipn_app, skipn_all, Nat.sub_diag. reflexivity.
Qed.

(** The blank-line substitution, one step at a time. *)
Lemma collapse_unfold s :
  re_sub false blank_lines [newline; newline] s =
  match s with
  | [] => []
  | c :: s1 =>
      if (code c =? 10) && (2 <=? run_newlines s1)
      then newline :: newline ::
           re_sub false blank_lines [newline; newline] (after_last_newline s1)
      else c :: re_sub false blank_lines [newline; newline] s1
  end.
Proof.
  unfold re_sub. destruct s as [|c s1]; [reflexivity |].
  cbn [sub_scan]. unfold match_len at 1. rewrite blank_lines_match.
  destruct ((code c =? 10) && (2 <=? run_newlines s1)); [|reflexivity].
  destruct (after_last_newline_suffix s1) as [pre Hpre].
  set (rest := after_last_newline s1) in *.
  assert (Hlen : length (c :: s1) - length rest = S (length s1 - length rest)).
  { rewrite Hpre at 1 2. simpl. rewrite length_app. lia. }
  rewrite Hlen. rewrite Hpre at 1 2. rewrite sub_scan_suffix. reflexivity.
Qed.

Lemma blank_runs_collapsed_bound s :
  blank_runs_collapsed s -> run_newlines s <= 2.
Proof. destruct s; simpl; [lia | tauto]. Qed.

Lemma collapse_bounded n :
  forall s, length s <= n ->
    run_newlines (re_sub false blank_lines [newline; newline] s)
      <= run_newlines s /\
    blank_runs_collapsed (re_sub false blank_lines [newline; newline] s).
Proof.
  induction n as [|n IH]; intros s Hn.
  - destruct s; [|simpl in Hn; lia]. rewrite collapse_unfold. simpl. auto.
  - destruct s as [|c s1]; [rewrite collapse_unfold; simpl; auto |].
    simpl in Hn. rewrite collapse_unfold.
    destruct ((code c =? 10) && (2 <=? run_newlines s1)) eqn:E.
    + apply andb_true_iff in E as [Hc H2]. apply Nat.leb_le in H2.
      destruct (after_last_newline_suffix s1) as [pre Hpre].
      destruct (IH (after_last_newline s1)) as [Hle Hgood].
      { rewrite Hpre in Hn. rewrite length_app in Hn. lia. }
      rewrite after_last_newline_run in Hle by lia.
      set (out := re_sub false blank_lines [newline; newline]
                    (after_last_newline s1)) in *.
      assert (Hnn : run_newlines (newline :: out) = 1 + run_newlines out)
        by reflexivity.
      assert (Hnnn : run_newlines (newline :: newline :: out)
                     = 1 + run_newlines (newline :: out)) by reflexivity.
      split.
      * rewrite Hnnn, Hnn. cbn [run_newlines].
        rewrite (newline_is_space c Hc), Hc. lia.
      * cbn [blank_runs_collapsed]. rewrite Hnnn, Hnn. repeat split; try lia.
        exact Hgood.
    + destruct (IH s1) as [Hle Hgood]; [lia |].
      pose proof (blank_runs_collapsed_bound _ Hgood) as Hb.
      set (out := re_sub false blank_lines [newline; newline] s1) in *.
      assert (Hrun : run_newlines (c :: out) <= run_newlines (c :: s1) /\
                     run_newlines (c :: out) <= 2).
      { cbn [run_newlines]. destruct (is_space c); [|lia].
        destruct (code c =? 10) eqn:Hc; [|lia].
        destruct (2 <=? run_newlines s1) eqn:E2.
        - rewrite ?Hc in E. cbn in E. discriminate.
        - apply Nat.leb_gt in E2. lia. }
      cbn [blank_runs_collapsed]. tauto.
Qed.

Lemma collapse_fixed s :
  blank_runs_collapsed s ->
  re_sub false blank_lines [newline; newline] s = s.
Proof.
  induction s as [|c s IH]; intros H; rewrite collapse_unfold; [reflexivity |].
  destruct H as [Hrun Hrest].
  destruct ((code c =? 10) && (2 <=? run_newlines s)) eqn:E.
  - apply andb_true_iff in E as [Hc H2]. apply Nat.leb_le in H2.
    cbn [run_newlines] in Hrun. rewrite (newline_is_space c Hc), Hc in Hrun.
    lia.
  - rewrite IH by exact Hrest. reflexivity.
Qed.

(* ------------------------------------------------------------------ *)
(** ** strip *)

Lemma lstrip_suffix s : exists w, s = w ++ lstrip s.
Proof.
  induction s as [|c s [w IH]]; [exists []; reflexivity |].
  simpl. destruct (is_space c); [|exists []; reflexivity].
  exists (c :: w). simpl. rewrite <- IH. reflexivity.
Qed.

Lemma rstrip_prefix s : exists w, s = rstrip s ++ w.
Proof.
  unfold rstrip. destruct (lstrip_suffix (rev s)) as [w Hw].
  exists (rev w). rewrite <- rev_app_distr, <- Hw, rev_involutive. reflexivity.
Qed.

Lemma lstrip_fixed s :
  match s with c :: _ => is_space c = false | [] => True end ->
  lstrip s = s.
Proof. destruct s as [|c s]; simpl; [reflexivity | intros ->; reflexivity]. Qed.

Lemma lstrip_head s :
  match lstrip s with c :: _ => is_space c = false | [] => True end.
Proof.
  induction s as [|c s IH]; simpl; [exact I |].
  destruct (is_space c) eqn:E; [exact IH | exact E].
Qed.

Lemma lstrip_idempotent s : lstrip (lstrip s) = lstrip s.
Proof. apply lstrip_fixed, lstrip_head. Qed.

Lemma rstrip_idempotent s : rstrip (rstrip s) = rstrip s.
Proof. unfold rstrip. rewrite rev_involutive, lstrip_idempotent. reflexivity. Qed.

Lemma strip_idempotent s : strip (strip s) = strip s.
Proof.
  unfold strip. set (y := lstrip s).
  assert (H : lstrip (rstrip y) = rstrip y).
  { apply lstrip_fixed. pose proof (lstrip_head s) as Hh. fold y in Hh.
    destruct (rstrip_prefix y) as [w Hw].
    destruct (rstrip y) as [|c p]; [exact I |].
    rewrite Hw in Hh. exact Hh. }
  rewrite H. apply rstrip_idempotent.
Qed.

Lemma run_newlines_app_le p w : run_newlines p <= run_newlines (p ++ w).
Proof.
  induction p as [|c p IH]; simpl; [lia |].
  destruct (is_space c); lia.
Qed.

Lemma blank_runs_collapsed_suffix pre s :
  blank_runs_collapsed (pre ++ s) -> blank_runs_collapsed s.
Proof. induction pre as [|c pre IH]; simpl; [auto | intros [_ H]; auto]. Qed.

Lemma blank_runs_collapsed_prefix p w :
  blank_runs_collapsed (p ++ w) -> blank_runs_collapsed p.
Proof.
  induction p as [|c p IH]; [simpl; auto |].
  intros [Hrun Hrest]. split; [|apply IH, Hrest].
  pose proof (run_newlines_app_le (c :: p) w). simpl app in *. lia.
Qed.

Lemma blank_runs_collapsed_strip s :
  blank_runs_collapsed s -> blank_runs_collapsed (strip s).
Proof.
  intros H. unfold strip.
  destruct (lstrip_suffix s) as [w Hw]. rewrite Hw in H.
  apply blank_runs_collapsed_suffix in H.
  destruct (rstrip_prefix (lstrip s)) as [w' Hw']. rewrite Hw' in H.
  apply blank_runs_collapsed_prefix in H. exact H.
Qed.

(** The whitespace normalisation of lines 74-75 is idempotent. *)
Lemma normalize_whitespace_idempotent s :
  normalize_whitespace (normalize_whitespace s) = normalize_whitespace s.
Proof.
  unfold normalize_whitespace.
  destruct (collapse_bounded (length s) s (le_n _)) as [_ Hgood].
  rewrite (collapse_fixed _ (blank_runs_collapsed_strip _ Hgood)).
  apply strip_idempotent.
Qed.

(** C3, amended. A second application changes nothing whenever the first
    result holds no further match of a file-operation pattern. *)
Theorem remove_file_references_idempotent_when_clean (content : string) :
  no_pattern_matches patterns
    (list_ascii_of_string (remove_file_references content)) ->
  remove_file_references (remove_file_references content) =
  remove_file_references content.
Proof.
  intros H. rewrite (remove_file_references_no_pattern _ H).
  unfold remove_file_references at 1 2, remove_file_references_text.
  destruct (list_ascii_of_string content) as [|c s]; [reflexivity |].
  rewrite list_ascii_of_string_of_list_ascii, normalize_whitespace_idempotent.
  reflexivity.
Qed.

Lemma remove_file_references_idempotent_when_clean_witness :
  no_pattern_matches patterns
    (list_ascii_of_string
       (remove_file_references "I've saved it to report.csv. Thanks!")) /\
  remove_file_references
    (remove_file_references "I've saved it to report.csv. Thanks!") =
  remove_file_references "I've saved it to report.csv. Thanks!".
Proof.
  assert (H : no_pattern_matches patterns
    (list_ascii_of_string
       (remove_file_references "I've saved it to report.csv. Thanks!"))).
  { unfold no_pattern_matches. repeat constructor. }
  split; [exact H |].
  exact (remove_file_references_idempotent_when_clean _ H).
Defined.

(* ------------------------------------------------------------------ *)
(** ** The tool assembler *)

Lemma replace_both name :
  replace "-" "_" (replace " " "_" name) = spaces_hyphens_to_underscores name.
Proof.
  unfold spaces_hyphens_to_underscores.
  induction name as [|c name IH]; [reflexivity |].
  cbn [replace list_ascii_of_string map string_of_list_ascii].
  rewrite IH. f_equal.
  destruct (Ascii.eqb c " ") eqn:E1; [reflexivity |].
  destruct (Ascii.eqb c "-") eqn:E2; reflexivity.
Qed.

Lemma uc_loop toolkit in_code_agents acc :
  fold_left (fun acc cfg => acc ++ toolkit (tools cfg)) in_code_agents acc =
  acc ++ uc_tools toolkit in_code_agents.
Proof.
  unfold uc_tools. revert acc.
  induction in_code_agents as [|cfg l IH]; intros acc; simpl.
  - rewrite app_nil_r. reflexivity.
  - rewrite IH, <- app_assoc. reflexivity.
Qed.

(** The second loop appends one tool per descriptor, in order, each
    carrying the name and the agent of its own descriptor. *)
Lemma delegation_loop ext :
  forall L, exists ts,
    domain_tools (fold_left delegation_step ext L) = domain_tools L ++ ts /\
    Forall2
      (fun cfg t =>
         tool_name t = normalized_name cfg /\
         forall task,
           delegation_of t task =
           Some (mkDelegation (agent_for cfg) [("user", task)]))
      ext ts.
Proof.
  induction ext as [|cfg ext IH]; intros L.
  - exists []. simpl. rewrite app_nil_r. split; [reflexivity | constructor].
  - destruct (IH (delegation_step L cfg)) as [ts [Heq Hall]].
    cbn [fold_left]. rewrite Heq.
    destruct cfg as [endpoint name task description
                    | space_id name task description].
    + eexists (_ :: ts). cbn [delegation_step domain_tools].
      rewrite <- app_assoc. split; [reflexivity |].
      constructor; [split; [reflexivity | intros; reflexivity] | exact Hall].
    + eexists (_ :: ts). cbn [delegation_step domain_tools].
      rewrite <- app_assoc. split; [reflexivity |].
      constructor; [split; [reflexivity | intros; reflexivity] | exact Hall].
Qed.

Lemma build_domain_tools_shape toolkit ext inc :
  exists ts,
    build_domain_tools toolkit ext inc = uc_tools toolkit inc ++ ts /\
    Forall2
      (fun cfg t =>
         tool_name t = normalized_name cfg /\
         forall task,
           delegation_of t task =
           Some (mkDelegation (agent_for cfg) [("user", task)]))
      ext ts.
Proof.
  unfold build_domain_tools.
  destruct (delegation_loop ext
              (mkLocals None None None
                 (fold_left (fun acc cfg => acc ++ toolkit (tools cfg)) inc [])))
    as [ts [Heq Hall]].
  exists ts. rewrite Heq. cbn [domain_tools]. rewrite uc_loop. auto.
Qed.

(** C5, as stated, fails: a tab is whitespace and is kept. *)
Lemma tool_name_keeps_tab :
  map tool_name
    (build_domain_tools (fun _ => [])
       [Genie "space" tabbed_name "genie" "data"] []) = [tabbed_name] /\
  whitespace_hyphens_to_underscores tabbed_name = "Account_Lookup" /\
  map tool_name
    (build_domain_tools (fun _ => [])
       [Genie "space" tabbed_name "genie" "data"] []) <>
  [whitespace_hyphens_to_underscores tabbed_name].
Proof.
  split; [reflexivity |]. split; [reflexivity |].
  vm_compute. discriminate.
Qed.

(** C5, amended. The delegation tools follow the UC function tools, one per
    descriptor and in order; the name of each is its descriptor's display
    name with every space character and every hyphen replaced by an
    underscore and every other character (other whitespace included) kept.
    "Account Lookup" and "Account-Lookup" both give "Account_Lookup". *)
Theorem delegation_tool_names toolkit ext inc :
  (exists ts,
     build_domain_tools toolkit ext inc = uc_tools toolkit inc ++ ts /\
     map tool_name ts =
     map (fun cfg => spaces_hyphens_to_underscores (config_name cfg)) ext) /\
  map tool_name
    (build_domain_tools (fun _ => [])
       [Genie "space" "Account Lookup" "genie" "data";
        ServedSubAgent "endpoint" "Account-Lookup" "chat" "data"] []) =
  ["Account_Lookup"; "Account_Lookup"].
Proof.
  split; [|reflexivity].
  destruct (build_domain_tools_shape toolkit ext inc) as [ts [Heq Hall]].
  exists ts. split; [exact Heq |].
  clear Heq. induction Hall as [|cfg t ext ts [Hname _] _ IH]; [reflexivity |].
  cbn [map]. rewrite Hname, IH. unfold normalized_name.
  rewrite replace_both. reflexivity.
Qed.

(** C6. The tool generated for the i-th descriptor sits at position i after
    the UC function tools, and invoking it forwards the task, as one user
    message, to the agent constructed from that same descriptor. *)
Theorem tool_bound_to_own_descriptor toolkit ext inc i cfg task :
  ext !! i = Some cfg ->
  exists t,
    build_domain_tools toolkit ext inc
      !! (length (uc_tools toolkit inc) + i) = Some t /\
    delegation_of t task = Some (mkDelegation (agent_for cfg) [("user", task)]) /\
    forall invoke,
      call_tool invoke t task = list.last (invoke (agent_for cfg) [("user", task)]).
Proof.
  intros Hi.
  destruct (build_domain_tools_shape toolkit ext inc) as [ts [Heq Hall]].
  destruct (Forall2_lookup_l _ _ _ _ _ Hall Hi) as [t [Ht [_ Hd]]].
  exists t. rewrite Heq, lookup_app_r by lia.
  replace (length (uc_tools toolkit inc) + i - length (uc_tools toolkit inc))
    with i by lia.
  split; [exact Ht |]. split; [apply Hd |].
  intros invoke. unfold call_tool. rewrite Hd. reflexivity.
Qed.

Lemma tool_bound_to_own_descriptor_witness :
  [Genie "space" "logfood-genie" "genie" "consumption data";
   ServedSubAgent "endpoint" "Account Lookup" "chat/responses" "accounts"]
    !! 0 = Some (Genie "space" "logfood-genie" "genie" "consumption data") /\
  exists t,
    build_domain_tools (fun names => map (fun n => mkTool n (uc_function n)) names)
      [Genie "space" "logfood-genie" "genie" "consumption data";
       ServedSubAgent "endpoint" "Account Lookup" "chat/responses" "accounts"]
      [mkInCodeSubAgent ["get_accounts"] "account lookup" "accounts"]
      !! (length
            (uc_tools (fun names => map (fun n => mkTool n (uc_function n)) names)
               [mkInCodeSubAgent ["get_accounts"] "account lookup" "accounts"])
          + 0) = Some t /\
    delegation_of t "top accounts" =
    Some (mkDelegation
            (agent_for (Genie "space" "logfood-genie" "genie" "consumption data"))
            [("user", "top accounts")]) /\
    forall invoke,
      call_tool invoke t "top accounts" =
      list.last
        (invoke
           (agent_for (Genie "space" "logfood-genie" "genie" "consumption data"))
           [("user", "top accounts")]).
Proof.
  split; [reflexivity |].
  apply (tool_bound_to_own_descriptor
           (fun names => map (fun n => mkTool n (uc_function n)) names)
           [Genie "space" "logfood-genie" "genie" "consumption data";
            ServedSubAgent "endpoint" "Account Lookup" "chat/responses" "accounts"]
           [mkInCodeSubAgent ["get_accounts"] "account lookup" "accounts"]
           0 (Genie "space" "logfood-genie" "genie" "consumption data")
           "top accounts").
  reflexivity.
Defined.

(* ------------------------------------------------------------------ *)
(** ** The formatter node *)

Lemma find_all_false {A} (f : A -> bool) l :
  Forall (fun x => f x = false) l -> List.find f l = None.
Proof.
  induction 1 as [|x l Hx _ IH]; simpl; [reflexivity |].
  rewrite Hx. exact IH.
Qed.

Lemma find_first_hit {A} (f : A -> bool) l1 x l2 :
  Forall (fun x => f x = false) l1 -> f x = true ->
  List.find f (l1 ++ x :: l2) = Some x.
Proof.
  induction 1 as [|y l1 Hy _ IH]; simpl; intros Hx.
  - rewrite Hx. reflexivity.
  - rewrite Hy. apply IH, Hx.
Qed.

Lemma not_ai_test st (l : list ref) :
  Forall (fun r => ~ is_ai st r) l ->
  Forall (fun r => String.eqb (msg_type (st r)) "ai" = false) (rev l).
Proof.
  intros H. apply List.Forall_rev.
  eapply List.Forall_impl; [|exact H].
  intros r Hr. apply String.eqb_neq. exact Hr.
Qed.

Lemma last_ai_message_none st msgs :
  Forall (fun r => ~ is_ai st r) msgs -> last_ai_message st msgs = None.
Proof. intros H. apply find_all_false, not_ai_test, H. Qed.

Lemma last_ai_message_some st pre r post :
  is_ai st r -> Forall (fun r' => ~ is_ai st r') post ->
  last_ai_message st (pre ++ r :: post) = Some r.
Proof.
  intros Hr Hpost. unfold last_ai_message.
  rewrite rev_app_distr. simpl. rewrite <- app_assoc. simpl.
  apply find_first_hit; [apply not_ai_test, Hpost |].
  apply String.eqb_eq. exact Hr.
Qed.

(** C10. When the message list holds no assistant message, or its last
    assistant message has empty content, the formatter node writes to no
    message object and hands the message list back as it is. *)
Theorem format_final_response_pass_through st state :
  (Forall (fun r => ~ is_ai st r) (messages state) \/
   exists pre r post,
     messages state = pre ++ r :: post /\ is_ai st r /\
     Forall (fun r' => ~ is_ai st r') post /\ content (st r) = "") ->
  fst (format_final_response st state) = st /\
  messages (snd (format_final_response st state)) = messages state.
Proof.
  intros H. unfold format_final_response. split; [|reflexivity].
  cbn [fst]. destruct H as [H | [pre [r [post [Hm [Hr [Hpost Hc]]]]]]].
  - rewrite (last_ai_message_none _ _ H). reflexivity.
  - rewrite Hm, (last_ai_message_some _ _ _ _ Hr Hpost), Hc. reflexivity.
Qed.

Lemma format_final_response_pass_through_witness :
  (Forall (fun r => ~ is_ai empty_answer_store r)
     (messages (mkNodeData [0; 1] None)) \/
   exists pre r post,
     messages (mkNodeData [0; 1] None) = pre ++ r :: post /\
     is_ai empty_answer_store r /\
     Forall (fun r' => ~ is_ai empty_answer_store r') post /\
     content (empty_answer_store r) = "") /\
  fst (format_final_response empty_answer_store (mkNodeData [0; 1] None)) =
    empty_answer_store /\
  messages (snd (format_final_response empty_answer_store
                   (mkNodeData [0; 1] None))) =
    messages (mkNodeData [0; 1] None).
Proof.
  assert (H : Forall (fun r => ~ is_ai empty_answer_store r)
                (messages (mkNodeData [0; 1] None)) \/
              exists pre r post,
                messages (mkNodeData [0; 1] None) = pre ++ r :: post /\
                is_ai empty_answer_store r /\
                Forall (fun r' => ~ is_ai empty_answer_store r') post /\
                content (empty_answer_store r) = "").
  { right. exists [0], 1, []. repeat split. constructor. }
  split; [exact H |].
  exact (format_final_response_pass_through empty_answer_store
           (mkNodeData [0; 1] None) H).
Defined.

(* ------------------------------------------------------------------ *)
(** ** The adapter: what one stretch of the loop does to the seen set *)

Lemma surfaced_ids_app l1 l2 :
  surfaced_ids (l1 ++ l2) = surfaced_ids l1 ++ surfaced_ids l2.
Proof. apply flat_map_app. Qed.

Lemma announced_app l1 l2 : announced (l1 ++ l2) = announced l1 ++ announced l2.
Proof. apply flat_map_app. Qed.


Lemma grows_nil s : grows s s [].
Proof.
  unfold grows. cbn [surfaced_ids flat_map].
  split; [reflexivity |]. split; [constructor |].
  split; [intros mid H; inversion H | constructor].
Qed.

Lemma grows_app s1 s2 s3 l1 l2 :
  grows s1 s2 l1 -> grows s2 s3 l2 -> grows s1 s3 (l1 ++ l2).
Proof.
  intros (Hsub1 & Hnd1 & Hin1 & Hok1) (Hsub2 & Hnd2 & Hin2 & Hok2).
  unfold grows. rewrite surfaced_ids_app.
  split; [set_solver |]. split; [|split].
  - apply NoDup_app. split; [exact Hnd1 |]. split; [|exact Hnd2].
    intros mid H1 H2. destruct (Hin1 mid H1) as [_ Hs2].
    destruct (Hin2 mid H2) as [Hn _]. contradiction.
  - intros mid H. apply elem_of_app in H as [H | H].
    + destruct (Hin1 mid H) as [Hn Hs2]. split; [exact Hn | set_solver].
    + destruct (Hin2 mid H) as [Hn Hs3]. split; [set_solver | exact Hs3].
  - apply Forall_app. split; assumption.
Qed.

Lemma grows_surfaced s mid es :
  mid ∉ s -> well_labelled (Surfaced mid es) ->
  grows s ({[ mid ]} ∪ s) [Surfaced mid es].
Proof.
  intros Hn Hok. unfold grows. cbn [surfaced_ids flat_map app].
  split; [set_solver |]. split; [apply NoDup_singleton |]. split.
  - intros j H. apply list_elem_of_singleton in H. subst j.
    split; [exact Hn | set_solver].
  - constructor; [exact Hok | constructor].
Qed.

Lemma grows_announced s node e :
  well_labelled (Announced node e) -> grows s s [Announced node e].
Proof.
  intros Hok. unfold grows. cbn [surfaced_ids flat_map app].
  split; [reflexivity |]. split; [constructor |]. split.
  - intros j H. inversion H.
  - constructor; [exact Hok | constructor].
Qed.

Lemma surface_messages_grows st msgs :
  forall a,
    grows (seen_ids a) (seen_ids (fst (surface_messages st msgs a)))
      (snd (surface_messages st msgs a)).
Proof.
  induction msgs as [|r msgs IH]; intros a; cbn [surface_messages].
  - apply grows_nil.
  - case_bool_decide as Hseen; [apply IH |].
    destruct (_langchain_to_responses (st r) (uuids a)) as [items n] eqn:E.
    specialize (IH (mkAdapter (first_name a) ({[msg_id (st r)]} ∪ seen_ids a) n
                      (_final_state a))).
    destruct (surface_messages st msgs _) as [a2 l]. cbn [fst snd] in *.
    change (Surfaced (msg_id (st r)) (map output_item_done items) :: l)
      with ([Surfaced (msg_id (st r)) (map output_item_done items)] ++ l).
    eapply grows_app; [|exact IH].
    apply grows_surfaced; [exact Hseen |].
    exists (st r), (uuids a). rewrite E. auto.
Qed.

Lemma surface_messages_fields st msgs :
  forall a,
    first_name (fst (surface_messages st msgs a)) = first_name a /\
    _final_state (fst (surface_messages st msgs a)) = _final_state a /\
    announced (snd (surface_messages st msgs a)) = [].
Proof.
  induction msgs as [|r msgs IH]; intros a; cbn [surface_messages].
  - auto.
  - case_bool_decide as Hseen; [apply IH |].
    destruct (_langchain_to_responses (st r) (uuids a)) as [items n].
    specialize (IH (mkAdapter (first_name a) ({[msg_id (st r)]} ∪ seen_ids a) n
                      (_final_state a))).
    destruct (surface_messages st msgs _) as [a2 l]. exact IH.
Qed.

Lemma surface_nodes_grows st nodes :
  forall a,
    grows (seen_ids a) (seen_ids (fst (surface_nodes st nodes a)))
      (snd (surface_nodes st nodes a)).
Proof.
  induction nodes as [|[name nd] nodes IH]; intros a; cbn [surface_nodes].
  - apply grows_nil.
  - pose proof (surface_messages_grows st (messages nd)
                  (mkAdapter (first_name a) (seen_ids a) (uuids a) (Some nd)))
      as H1.
    destruct (surface_messages st (messages nd) _) as [a1 l1].
    specialize (IH a1). destruct (surface_nodes st nodes a1) as [a2 l2].
    cbn [fst snd seen_ids] in *. eapply grows_app; eassumption.
Qed.

Lemma surface_nodes_fields st nodes :
  forall a,
    first_name (fst (surface_nodes st nodes a)) = first_name a /\
    _final_state (fst (surface_nodes st nodes a)) =
      match list.last (map snd nodes) with
      | Some nd => Some nd
      | None => _final_state a
      end /\
    announced (snd (surface_nodes st nodes a)) = [].
Proof.
  induction nodes as [|[name nd] nodes IH]; intros a; cbn [surface_nodes].
  - auto.
  - pose proof (surface_messages_fields st (messages nd)
                  (mkAdapter (first_name a) (seen_ids a) (uuids a) (Some nd)))
      as (Hf & Hs & Ha).
    destruct (surface_messages st (messages nd) _) as [a1 l1].
    specialize (IH a1) as (Hf2 & Hs2 & Ha2).
    destruct (surface_nodes st nodes a1) as [a2 l2].
    cbn [fst snd first_name _final_state] in *.
    rewrite announced_app, Ha, Ha2, Hf2, Hs2, Hf, Hs.
    repeat split. cbn [map]. rewrite last_cons.
    destruct (list.last (map snd nodes)); reflexivity.
Qed.

Lemma announce_some a c a1 l1 :
  announce a c = Some (a1, l1) ->
  seen_ids a1 = seen_ids a /\ first_name a1 = first_name a /\
  _final_state a1 = _final_state a /\
  grows (seen_ids a) (seen_ids a) l1 /\
  announced l1 =
    if first_name a then []
    else match origin c with
         | Some n => if String.eqb n "formatter" then [] else [n]
         | None => []
         end.
Proof.
  unfold announce, origin. destruct (first_name a) eqn:Hf.
  - intros [= <- <-]. rewrite ?Hf.
    split; [reflexivity |]. split; [reflexivity |]. split; [reflexivity |].
    split; [apply grows_nil | reflexivity].
  - destruct (events c) as [|[n nd] rest]; [discriminate |].
    cbn [map head fst]. destruct (String.eqb n "formatter") eqn:En.
    + intros [= <- <-]. rewrite ?Hf.
      split; [reflexivity |]. split; [reflexivity |]. split; [reflexivity |].
      split; [apply grows_nil | reflexivity].
    + intros [= <- <-]. cbn [seen_ids first_name _final_state]. rewrite ?Hf.
      split; [reflexivity |]. split; [reflexivity |]. split; [reflexivity |].
      split; [|reflexivity].
      apply grows_announced. split.
      * apply String.eqb_neq. exact En.
      * eexists. reflexivity.
Qed.

Lemma announce_none a c :
  announce a c = None -> events c = [].
Proof.
  unfold announce. destruct (first_name a); [discriminate |].
  destruct (events c) as [|[n nd] rest]; [reflexivity |].
  destruct (String.eqb n "formatter"); discriminate.
Qed.

Lemma stream_loop_grows gen :
  forall st a,
    grows (seen_ids a) (seen_ids (final (stream_loop gen st a)))
      (log (stream_loop gen st a)).
Proof.
  induction gen as [|c gen IH]; intros st a; cbn [stream_loop].
  - apply grows_nil.
  - destruct (String.eqb (event_name c) "updates").
    + destruct (announce a c) as [[a1 l1]|] eqn:Ha; [|apply grows_nil].
      apply announce_some in Ha as (Hs & _ & _ & Hg & _).
      pose proof (surface_nodes_grows (runs c st) (events c) a1) as H2.
      destruct (surface_nodes (runs c st) (events c) a1) as [a2 l2].
      specialize (IH (runs c st) (clear_first_name a2)).
      cbn [log final fst snd] in *. rewrite Hs in H2.
      eapply grows_app; [exact Hg |]. eapply grows_app; [exact H2 |].
      exact IH.
    + apply (IH (runs c st) (clear_first_name a)).
Qed.

(* ------------------------------------------------------------------ *)
(** ** The adapter: one surfacing per identifier *)

Lemma derived_from_absent mid l :
  mid ∉ surfaced_ids l -> derived_from mid l = [].
Proof.
  induction l as [|e l IH]; [reflexivity |].
  destruct e as [node e | j es]; cbn [surfaced_ids derived_from flat_map app].
  - exact IH.
  - intros H. apply not_elem_of_cons in H as [Hne Hl].
    destruct (decide (j = mid)) as [-> | _]; [contradiction |].
    apply IH, Hl.
Qed.


Lemma derived_from_single mid l :
  NoDup (surfaced_ids l) -> Forall well_labelled l ->
  derived_from mid l = [] \/
  exists m n,
    msg_id m = mid /\
    derived_from mid l = map output_item_done (fst (_langchain_to_responses m n)).
Proof.
  induction l as [|e l IH]; [left; reflexivity |].
  intros Hnd Hok. inversion Hok as [|? ? He Hl]; subst.
  destruct e as [node e | j es]; cbn [surfaced_ids derived_from flat_map app] in *.
  - apply IH; assumption.
  - apply NoDup_cons in Hnd as [Hj Hnd].
    destruct (decide (j = mid)) as [-> | Hne].
    + right. destruct He as (m & n & Hm & Hes). exists m, n.
      split; [exact Hm |].
      fold (derived_from mid l). rewrite (derived_from_absent _ _ Hj), app_nil_r.
      exact Hes.
    + apply IH; assumption.
Qed.

(** C1, as stated, fails: an assistant message with text and a tool call
    yields a text item and a function-call item, both derived from it. *)
Lemma two_items_from_one_message :
  derived_from (Some "a1")
    (log (predict_stream_run None sample_stream sample_store)) =
  [output_item_done (text_output_item "Let me look." (MessageId "a1"));
   output_item_done
     (function_call_item (MessageId "a1") "call_1" "logfood_genie" "{}")] /\
  ~ length (derived_from (Some "a1")
              (log (predict_stream_run None sample_stream sample_store))) <= 1.
Proof.
  assert (H : derived_from (Some "a1")
    (log (predict_stream_run None sample_stream sample_store)) =
  [output_item_done (text_output_item "Let me look." (MessageId "a1"));
   output_item_done
     (function_call_item (MessageId "a1") "call_1" "logfood_genie" "{}")])
    by (vm_compute; reflexivity).
  split; [exact H |]. rewrite H. simpl. lia.
Qed.

(** C1, amended. Within one invocation every message identifier is surfaced
    at most once; the items derived from an identifier are therefore those
    of a single translation of one message: none, one, or several (a text
    item and one function-call item per tool call). *)
Theorem each_identifier_surfaced_once prior gen st :
  NoDup (surfaced_ids (log (predict_stream_run prior gen st))) /\
  forall mid,
    derived_from mid (log (predict_stream_run prior gen st)) = [] \/
    exists m n,
      msg_id m = mid /\
      derived_from mid (log (predict_stream_run prior gen st)) =
      map output_item_done (fst (_langchain_to_responses m n)).
Proof.
  unfold predict_stream_run.
  destruct (stream_loop_grows gen st (mkAdapter true ∅ 0 prior))
    as (_ & Hnd & _ & Hok).
  split; [exact Hnd |]. intros mid. apply derived_from_single; assumption.
Qed.

(* ------------------------------------------------------------------ *)
(** ** The adapter: announcements and the retained state *)


Lemma last_retained_cons prior c gen :
  last_retained prior (c :: gen) =
  last_retained
    (if is_update c then
       match list.last (map snd (events c)) with
       | Some nd => Some nd
       | None => prior
       end
     else prior) gen.
Proof.
  unfold last_retained. cbn [map concat]. rewrite last_app.
  destruct (list.last (concat _)); [reflexivity |].
  destruct (is_update c); [reflexivity | reflexivity].
Qed.

Lemma stream_loop_exhausted gen :
  forall st a,
    names_a_node gen ->
    outcome (stream_loop gen st a) = Exhausted /\
    _final_state (final (stream_loop gen st a)) =
      last_retained (_final_state a) gen /\
    announced (log (stream_loop gen st a)) =
      concat
        (imap
           (fun i c =>
              if (negb (first_name a) || (0 <? i)) && is_update c then
                match origin c with
                | Some n => if String.eqb n "formatter" then [] else [n]
                | None => []
                end
              else [])
           gen).
Proof.
  induction gen as [|c gen IH]; intros st a Hwf; [auto |].
  inversion Hwf as [|? ? Hc Hgen]; subst.
  rewrite last_retained_cons, imap_cons. cbn [stream_loop concat].
  unfold is_update. destruct (String.eqb (event_name c) "updates").
  - destruct (announce a c) as [[a1 l1]|] eqn:Ha;
      [|apply announce_none in Ha; contradiction].
    apply announce_some in Ha as (_ & Hf1 & Hs1 & _ & Han).
    pose proof (surface_nodes_fields (runs c st) (events c) a1)
      as (Hf2 & Hs2 & Han2).
    destruct (surface_nodes (runs c st) (events c) a1) as [a2 l2].
    destruct (IH (runs c st) (clear_first_name a2) Hgen) as (Ho & Hfin & Hann).
    cbn [log final outcome fst snd] in *.
    split; [exact Ho |]. split.
    + rewrite Hfin. cbn [clear_first_name _final_state].
      rewrite Hs2, Hs1. reflexivity.
    + rewrite !announced_app, Han, Han2, Hann. cbn [app].
      rewrite orb_false_r, andb_true_r. f_equal.
      * destruct (first_name a); reflexivity.
      * f_equal. apply imap_ext. intros i x _. cbn.
        rewrite orb_true_r. reflexivity.
  - destruct (IH (runs c st) (clear_first_name a) Hgen) as (Ho & Hfin & Hann).
    split; [exact Ho |]. split; [exact Hfin |].
    rewrite Hann, andb_false_r. cbn [app]. f_equal.
    apply imap_ext. intros i x _. cbn. rewrite orb_true_r. reflexivity.
Qed.



(* ------------------------------------------------------------------ *)
(** ** predict *)

(** C8, as stated, fails: a custom input under the key "files" is
    overwritten by the file mapping. *)
Lemma custom_input_files_overwritten :
  ({[ "files" := PyStr "mine" ]} : gmap string pyvalue) !! "files" =
    Some (PyStr "mine") /\
  option_map (fun resp => custom_outputs resp !! "files")
    (predict None [] sample_store (Some {[ "files" := PyStr "mine" ]})) =
    Some (Some (PyFiles ∅)).
Proof.
  split; [apply lookup_singleton_eq |].
  unfold predict, predict_stream_run.
  cbn [stream_loop outcome final _final_state final_files option_map
       custom_outputs].
  rewrite lookup_insert_eq. reflexivity.
Qed.

(** C8, amended. On a stream whose events each name a node, [predict]
    returns a response whose custom outputs hold every custom input whose
    key is not "files", and bind "files" to the file mapping of the node
    data retained last (the empty mapping when none is retained or when it
    carries no "files"). *)
Theorem predict_custom_outputs prior gen st custom_inputs :
  names_a_node gen ->
  exists resp,
    predict prior gen st custom_inputs = Some resp /\
    (forall k v,
       k <> "files" -> default ∅ custom_inputs !! k = Some v ->
       custom_outputs resp !! k = Some v) /\
    custom_outputs resp !! "files" =
      Some (PyFiles (final_files (last_retained prior gen))).
Proof.
  intros Hwf. unfold predict, predict_stream_run.
  destruct (stream_loop_exhausted gen st (mkAdapter true ∅ 0 prior) Hwf)
    as (Ho & Hfin & _).
  rewrite Ho, Hfin. eexists. split; [reflexivity |].
  cbn [custom_outputs _final_state]. split.
  - intros k v Hk Hv. rewrite lookup_insert_ne by congruence. exact Hv.
  - apply lookup_insert_eq.
Qed.

Lemma predict_custom_outputs_witness :
  names_a_node sample_stream /\
  exists resp,
    predict None sample_stream sample_store (Some {[ "user" := PyStr "ae" ]})
      = Some resp /\
    (forall k v,
       k <> "files" ->
       default ∅ (Some ({[ "user" := PyStr "ae" ]} : gmap string pyvalue)) !! k
         = Some v ->
       custom_outputs resp !! k = Some v) /\
    custom_outputs resp !! "files" =
      Some (PyFiles (final_files (last_retained None sample_stream))).
Proof.
  assert (H : names_a_node sample_stream).
  { unfold names_a_node, sample_stream, supervisor_with_formatter.
    repeat constructor; discriminate. }
  split; [exact H |].
  exact (predict_custom_outputs None sample_stream sample_store
           (Some {[ "user" := PyStr "ae" ]}) H).
Defined.

(* ------------------------------------------------------------------ *)
(** ** The adapter on the compiled graph: supervisor, then formatter *)





Lemma workflow_run prior supervisor update state st0 :
  let st1 := supervisor st0 in
  let st2 := fst (format_final_response st1 state) in
  let a0 := mkAdapter true ∅ 0 (Some update) in
  let R := predict_stream_run prior
             (supervisor_with_formatter supervisor update state) st0 in
  exists a1,
    seen_ids a1 = seen_ids (fst (surface_messages st1 (messages update) a0)) /\
    log R = snd (surface_messages st1 (messages update) a0) ++
            snd (surface_messages st2 (messages state) a1) /\
    final_store R = st2.
Proof.
  intros st1 st2 a0 R. subst R.
  unfold predict_stream_run, supervisor_with_formatter.
  cbn [stream_loop runs event_name events announce first_name surface_nodes
       messages seen_ids uuids _final_state].
  change (String.eqb "updates" "updates") with true. cbn iota.
  fold st1. fold a0.
  destruct (surface_messages st1 (messages update) a0) as [a1 l1] eqn:E1.
  unfold announce, clear_first_name.
  cbn [first_name seen_ids uuids _final_state events runs].
  change (String.eqb "formatter" "formatter") with true. cbn iota.
  cbn [first_name seen_ids uuids _final_state].
  fold st2.
  eexists (mkAdapter false (seen_ids a1) (uuids a1) (Some _)).
  destruct (surface_messages st2 (messages state) _) as [a2 l2] eqn:E2.
  cbn [log final_store fst snd seen_ids].
  rewrite !app_nil_r. cbn [app]. rewrite E2. cbn [snd]. auto.
Qed.





(* ------------------------------------------------------------------ *)
(** ** More on the cleaned text *)

Lemma strip_head s :
  match strip s with c :: _ => is_space c = false | [] => True end.
Proof.
  unfold strip. pose proof (lstrip_head s) as Hh.
  destruct (rstrip_prefix (lstrip s)) as [w Hw].
  destruct (rstrip (lstrip s)) as [|c p]; [exact I |].
  rewrite Hw in Hh. exact Hh.
Qed.

Lemma last_rev_head {A} (l : list A) : list.last (rev l) = head l.
Proof. destruct l as [|x l]; [reflexivity |]. simpl. apply last_snoc. Qed.

Lemma strip_last s c : list.last (strip s) = Some c -> is_space c = false.
Proof.
  unfold strip, rstrip. rewrite last_rev_head.
  pose proof (lstrip_head (rev (lstrip s))) as Hh.
  destruct (lstrip (rev (lstrip s))) as [|d l]; [discriminate |].
  intros [= <-]. exact Hh.
Qed.

Lemma newlines_le_run w post :
  Forall (fun c => is_space c = true) w ->
  newlines w <= run_newlines (w ++ post).
Proof.
  unfold newlines. induction 1 as [|c w Hc _ IH]; simpl; [lia |].
  rewrite Hc. destruct (code c =? 10); simpl; lia.
Qed.

Lemma normalize_whitespace_collapsed s :
  blank_runs_collapsed (normalize_whitespace s).
Proof.
  unfold normalize_whitespace. apply blank_runs_collapsed_strip.
  apply (collapse_bounded (length s) s (le_n _)).
Qed.

Lemma remove_file_references_text_shape t :
  remove_file_references_text t = [] \/
  exists x, remove_file_references_text t = normalize_whitespace x.
Proof.
  unfold remove_file_references_text. destruct t; [left; reflexivity |].
  right. eexists. reflexivity.
Qed.

(** X1. The cleaned text starts and ends with a character that is not
    whitespace, and none of its whitespace runs holds three newlines. *)
Theorem cleaned_text_is_normalized (content : string) :
  let out := list_ascii_of_string (remove_file_references content) in
  (forall c, head out = Some c -> is_space c = false) /\
  (forall c, list.last out = Some c -> is_space c = false) /\
  (forall pre w post,
     out = pre ++ w ++ post -> Forall (fun c => is_space c = true) w ->
     newlines w <= 2).
Proof.
  cbv zeta. unfold remove_file_references.
  rewrite list_ascii_of_string_of_list_ascii.
  destruct (remove_file_references_text_shape (list_ascii_of_string content))
    as [-> | [x ->]].
  - split; [discriminate |]. split; [discriminate |].
    intros pre w post H _. symmetry in H.
    apply app_eq_nil in H as [_ H]. apply app_eq_nil in H as [-> _].
    unfold newlines. simpl. lia.
  - split; [|split].
    + intros c H. pose proof (strip_head (re_sub false blank_lines
                                 [newline; newline] x)) as Hh.
      unfold normalize_whitespace in H.
      destruct (strip _) as [|d l]; [discriminate |].
      injection H as <-. exact Hh.
    + intros c. apply strip_last.
    + intros pre w post H Hw.
      pose proof (normalize_whitespace_collapsed x) as Hg. rewrite H in Hg.
      apply blank_runs_collapsed_suffix, blank_runs_collapsed_bound in Hg.
      pose proof (newlines_le_run w post Hw). lia.
Qed.

Lemma sub_scan_erase_length ic r s :
  forall n, length (sub_scan ic r [] s n) <= length s.
Proof.
  induction s as [|c s IH]; intros n.
  - destruct n; simpl; [destruct (match_len ic r []) |]; simpl; lia.
  - destruct n as [|n]; cbn [sub_scan].
    + destruct (match_len ic r (c :: s)) as [[|m]|].
      * destruct (match_len_nonempty ic r (c :: s)) as [[|m]|]; simpl.
        all: try (specialize (IH 0); lia).
        specialize (IH m). lia.
      * simpl. specialize (IH m). lia.
      * simpl. specialize (IH 0). lia.
    + simpl. specialize (IH n). lia.
Qed.

Lemma strip_patterns_length ps :
  forall s, length (strip_patterns ps s) <= length s.
Proof.
  unfold strip_patterns. induction ps as [|p ps IH]; intros s; simpl; [lia |].
  etransitivity; [apply IH |]. apply sub_scan_erase_length.
Qed.

Lemma after_last_newline_length s :
  length (after_last_newline s) + run_newlines s <= length s.
Proof.
  induction s as [|c s IH]; cbn [after_last_newline run_newlines]; [simpl; lia |].
  destruct (is_space c); [|simpl; lia].
  destruct (1 <=? run_newlines s) eqn:E.
  - destruct (code c =? 10); simpl; lia.
  - apply Nat.leb_gt in E. destruct (code c =? 10); simpl; lia.
Qed.

Lemma collapse_length n :
  forall s, length s <= n ->
    length (re_sub false blank_lines [newline; newline] s) <= length s.
Proof.
  induction n as [|n IH]; intros s Hn; rewrite collapse_unfold.
  - destruct s; [simpl; lia | simpl in Hn; lia].
  - destruct s as [|c s1]; [simpl; lia |]. simpl in Hn.
    destruct ((code c =? 10) && (2 <=? run_newlines s1)) eqn:E.
    + apply andb_true_iff in E as [_ H2]. apply Nat.leb_le in H2.
      pose proof (after_last_newline_length s1) as Hl.
      specialize (IH (after_last_newline s1)). simpl. lia.
    + specialize (IH s1). simpl. lia.
Qed.

Lemma lstrip_length s : length (lstrip s) <= length s.
Proof.
  destruct (lstrip_suffix s) as [w Hw]. rewrite Hw at 2.
  rewrite length_app. lia.
Qed.

Lemma strip_length s : length (strip s) <= length s.
Proof.
  unfold strip. destruct (rstrip_prefix (lstrip s)) as [w Hw].
  pose proof (lstrip_length s) as H. rewrite Hw in H.
  rewrite length_app in H. lia.
Qed.

Lemma string_length_text s : String.length s = length (list_ascii_of_string s).
Proof. induction s as [|c s IH]; simpl; [reflexivity | rewrite IH; reflexivity]. Qed.

(** X2. Cleaning never lengthens the content. *)
Theorem cleaning_never_lengthens (content : string) :
  String.length (remove_file_references content) <= String.length content.
Proof.
  rewrite !string_length_text. unfold remove_file_references.
  rewrite list_ascii_of_string_of_list_ascii.
  unfold remove_file_references_text.
  destruct (list_ascii_of_string content) as [|c s] eqn:E; [simpl; lia |].
  unfold normalize_whitespace.
  etransitivity; [apply strip_length |].
  etransitivity; [apply (collapse_length _ _ (le_n _)) |].
  apply strip_patterns_length.
Qed.

(* ------------------------------------------------------------------ *)
(** ** What the formatter writes *)

Lemma remove_file_references_stripped content :
  apply_format_template (remove_file_references content) =
  remove_file_references content.
Proof.
  unfold apply_format_template, remove_file_references.
  rewrite list_ascii_of_string_of_list_ascii. f_equal.
  destruct (remove_file_references_text_shape (list_ascii_of_string content))
    as [-> | [x ->]]; [reflexivity |].
  apply strip_idempotent.
Qed.

(** X5. When the last assistant message has content, the formatter replaces
    that content by [remove_file_references] of it (the template step adds
    nothing), keeps the other fields of the message, writes to no other
    message object, and returns the message list without a "files" key. *)
Theorem format_final_response_effect st state r :
  last_ai_message st (messages state) = Some r ->
  content (st r) <> "" ->
  let st' := fst (format_final_response st state) in
  content (st' r) = remove_file_references (content (st r)) /\
  msg_type (st' r) = msg_type (st r) /\
  msg_id (st' r) = msg_id (st r) /\
  tool_calls (st' r) = tool_calls (st r) /\
  tool_call_id (st' r) = tool_call_id (st r) /\
  (forall r', r' <> r -> st' r' = st r') /\
  snd (format_final_response st state) = mkNodeData (messages state) None.
Proof.
  intros Hlast Hc. cbv zeta. unfold format_final_response. cbn [fst snd].
  rewrite Hlast. destruct (content (st r)) as [|c0 s0] eqn:Ec; [contradiction |].
  unfold set_content. rewrite Nat.eqb_refl. cbn [content msg_type msg_id
    tool_calls tool_call_id].
  rewrite remove_file_references_stripped.
  repeat (split; [reflexivity |]). split; [|reflexivity].
  intros r' Hne. apply Nat.eqb_neq in Hne. rewrite Hne. reflexivity.
Qed.

Lemma format_final_response_effect_witness :
  last_ai_message sample_store (messages sample_update) = Some 3 /\
  content (sample_store 3) <> "" /\
  content (fst (format_final_response sample_store sample_update) 3) =
    remove_file_references (content (sample_store 3)) /\
  msg_type (fst (format_final_response sample_store sample_update) 3) =
    msg_type (sample_store 3) /\
  msg_id (fst (format_final_response sample_store sample_update) 3) =
    msg_id (sample_store 3) /\
  tool_calls (fst (format_final_response sample_store sample_update) 3) =
    tool_calls (sample_store 3) /\
  tool_call_id (fst (format_final_response sample_store sample_update) 3) =
    tool_call_id (sample_store 3) /\
  (forall r', r' <> 3 ->
     fst (format_final_response sample_store sample_update) r' = sample_store r') /\
  snd (format_final_response sample_store sample_update) =
    mkNodeData (messages sample_update) None.
Proof.
  assert (H1 : last_ai_message sample_store (messages sample_update) = Some 3)
    by reflexivity.
  assert (H2 : content (sample_store 3) <> "") by discriminate.
  split; [exact H1 |]. split; [exact H2 |].
  exact (format_final_response_effect sample_store sample_update 3 H1 H2).
Defined.

(* ------------------------------------------------------------------ *)
(** ** Case-insensitivity *)

Lemma lower_facts c :
  lower (lower c) = lower c /\
  is_space (lower c) = is_space c /\
  is_word (lower c) = is_word c /\
  path_extra (lower c) = path_extra c /\
  (code (lower c) =? 10) = (code c =? 10).
Proof.
  destruct c as [[] [] [] [] [] [] [] []]; repeat split; reflexivity.
Qed.

Lemma accepts_lower cs c : accepts true cs (lower c) = accepts true cs c.
Proof.
  destruct (lower_facts c) as (Hi & Hs & Hw & Hp & Hn).
  destruct cs; cbn [accepts]; rewrite ?Hi, ?Hs, ?Hw, ?Hp, ?Hn; reflexivity.
Qed.

Lemma star_greedy_lower cs s :
  forall k k',
    (forall t, k' (map lower t) = option_map (map lower) (k t)) ->
    star_greedy true cs (map lower s) k' =
    option_map (map lower) (star_greedy true cs s k).
Proof.
  induction s as [|c s IH]; intros k k' Hk; cbn [map star_greedy].
  - apply (Hk []).
  - rewrite accepts_lower. destruct (accepts true cs c); [|apply (Hk (c :: s))].
    rewrite (IH k k' Hk). destruct (star_greedy true cs s k); [reflexivity |].
    apply (Hk (c :: s)).
Qed.

Lemma star_lazy_lower cs s :
  forall k k',
    (forall t, k' (map lower t) = option_map (map lower) (k t)) ->
    star_lazy true cs (map lower s) k' =
    option_map (map lower) (star_lazy true cs s k).
Proof.
  induction s as [|c s IH]; intros k k' Hk; cbn [map star_lazy].
  - pose proof (Hk []) as H0. cbn [map] in H0. rewrite H0.
    destruct (k []); reflexivity.
  - pose proof (Hk (c :: s)) as H0. cbn [map] in H0. rewrite H0.
    destruct (k (c :: s)); [reflexivity |].
    cbn [option_map]. rewrite accepts_lower.
    destruct (accepts true cs c); [apply (IH k k' Hk) | reflexivity].
Qed.

Lemma rmatch_lower r :
  forall s k k',
    (forall t, k' (map lower t) = option_map (map lower) (k t)) ->
    rmatch true r (map lower s) k' = option_map (map lower) (rmatch true r s k).
Proof.
  induction r as [|cs|r1 IH1 r2 IH2|r1 IH1 r2 IH2|greedy cs]; intros s k k' Hk;
    cbn [rmatch].
  - apply Hk.
  - destruct s as [|c s]; [reflexivity |]. cbn [map]. rewrite accepts_lower.
    destruct (accepts true cs c); [apply Hk | reflexivity].
  - apply IH1. intros t. apply IH2, Hk.
  - rewrite (IH1 s k k' Hk). destruct (rmatch true r1 s k); [reflexivity |].
    apply IH2, Hk.
  - destruct greedy; [apply star_greedy_lower | apply star_lazy_lower]; exact Hk.
Qed.

Lemma match_len_lower r s :
  match_len true r (map lower s) = match_len true r s.
Proof.
  unfold match_len.
  rewrite (rmatch_lower r s Some Some) by reflexivity.
  destruct (rmatch true r s Some); cbn [option_map]; [|reflexivity].
  rewrite !length_map. reflexivity.
Qed.

Lemma match_len_nonempty_lower r s :
  match_len_nonempty true r (map lower s) = match_len_nonempty true r s.
Proof.
  unfold match_len_nonempty.
  rewrite (rmatch_lower r s
             (fun rest => if length rest <? length s then Some rest else None)).
  - destruct (rmatch true r s _); cbn [option_map]; [|reflexivity].
    rewrite !length_map. reflexivity.
  - intros t. rewrite !length_map.
    destruct (length t <? length s); reflexivity.
Qed.

Lemma sub_scan_lower r s :
  forall n,
    sub_scan true r [] (map lower s) n = map lower (sub_scan true r [] s n).
Proof.
  induction s as [|c s IH]; intros n.
  - destruct n; cbn [map sub_scan]; [|reflexivity].
    change (@nil ascii) with (map lower []) at 1. rewrite match_len_lower.
    destruct (match_len true r []); reflexivity.
  - destruct n as [|n].
    + change (sub_scan true r [] (map lower (c :: s)) 0) with
        (match match_len true r (map lower (c :: s)) with
         | Some (S n) => [] ++ sub_scan true r [] (map lower s) n
         | Some O =>
             [] ++
             match match_len_nonempty true r (map lower (c :: s)) with
             | Some (S n) => [] ++ sub_scan true r [] (map lower s) n
             | _ => lower c :: sub_scan true r [] (map lower s) 0
             end
         | None => lower c :: sub_scan true r [] (map lower s) 0
         end).
      rewrite match_len_lower, match_len_nonempty_lower. cbn [sub_scan].
      destruct (match_len true r (c :: s)) as [[|m]|]; cbn [app].
      * destruct (match_len_nonempty true r (c :: s)) as [[|m]|]; cbn [app map];
          rewrite IH; reflexivity.
      * apply IH.
      * cbn [map]. rewrite IH. reflexivity.
    + cbn [map sub_scan]. apply IH.
Qed.

Lemma strip_patterns_lower ps :
  forall s, strip_patterns ps (map lower s) = map lower (strip_patterns ps s).
Proof.
  unfold strip_patterns. induction ps as [|p ps IH]; intros s; cbn [fold_left].
  - reflexivity.
  - unfold re_sub at 2. rewrite sub_scan_lower. apply IH.
Qed.

Lemma run_newlines_lower s : run_newlines (map lower s) = run_newlines s.
Proof.
  induction s as [|c s IH]; [reflexivity |]. cbn [map run_newlines].
  destruct (lower_facts c) as (_ & Hs & _ & _ & Hn).
  rewrite Hs, Hn, IH. reflexivity.
Qed.

Lemma after_last_newline_lower s :
  after_last_newline (map lower s) = map lower (after_last_newline s).
Proof.
  induction s as [|c s IH]; [reflexivity |]. cbn [map after_last_newline].
  destruct (lower_facts c) as (_ & Hs & _ & _ & Hn).
  rewrite Hs, Hn, run_newlines_lower, IH.
  destruct (is_space c), (1 <=? run_newlines s), (code c =? 10); reflexivity.
Qed.

Lemma collapse_lower n :
  forall s, length s <= n ->
    re_sub false blank_lines [newline; newline] (map lower s) =
    map lower (re_sub false blank_lines [newline; newline] s).
Proof.
  induction n as [|n IH]; intros s Hn.
  - destruct s; [reflexivity | simpl in Hn; lia].
  - destruct s as [|c s1]; [reflexivity |]. simpl in Hn.
    rewrite (collapse_unfold (c :: s1)), (collapse_unfold (map lower (c :: s1))).
    cbn [map]. destruct (lower_facts c) as (_ & _ & _ & _ & Hc).
    rewrite Hc, run_newlines_lower, after_last_newline_lower.
    destruct ((code c =? 10) && (2 <=? run_newlines s1)).
    + pose proof (after_last_newline_length s1).
      rewrite IH by lia. reflexivity.
    + rewrite IH by lia. reflexivity.
Qed.

Lemma lstrip_lower s : lstrip (map lower s) = map lower (lstrip s).
Proof.
  induction s as [|c s IH]; [reflexivity |]. cbn [map lstrip].
  destruct (lower_facts c) as (_ & Hs & _). rewrite Hs.
  destruct (is_space c); [exact IH | reflexivity].
Qed.

Lemma strip_lower s : strip (map lower s) = map lower (strip s).
Proof.
  unfold strip, rstrip.
  rewrite lstrip_lower, <- map_rev, lstrip_lower, <- map_rev. reflexivity.
Qed.

(** X3. Cleaning is blind to the case of the letters A-Z: cleaning the
    lower-cased content gives the lower-cased cleaned content, so the same
    stretches are removed however the content is capitalised. *)
Theorem cleaning_commutes_with_lowercase (content : string) :
  remove_file_references (lower_string content) =
  lower_string (remove_file_references content).
Proof.
  unfold lower_string, remove_file_references.
  rewrite !list_ascii_of_string_of_list_ascii. f_equal.
  unfold remove_file_references_text.
  destruct (list_ascii_of_string content) as [|c s]; [reflexivity |].
  change (map lower (c :: s)) with (lower c :: map lower s).
  cbn iota. change (lower c :: map lower s) with (map lower (c :: s)).
  unfold normalize_whitespace.
  rewrite strip_patterns_lower, (collapse_lower _ _ (le_n _)), strip_lower.
  reflexivity.
Qed.

(* ------------------------------------------------------------------ *)
(** ** The substitution loop works line by line *)

Lemma newline_rejected cs :
  newline_free_set cs = true -> accepts true cs newline = false.
Proof.
  destruct cs as [| | | |l]; cbn [newline_free_set accepts]; try discriminate;
    try reflexivity.
  destruct l as [[] [] [] [] [] [] [] []]; intros H; try discriminate H;
    reflexivity.
Qed.

Lemma star_greedy_line cs s1 s2 :
  newline_free_set cs = true ->
  forall k k',
    (forall t, k' (t ++ newline :: s2) =
               option_map (fun x => x ++ newline :: s2) (k t)) ->
    star_greedy true cs (s1 ++ newline :: s2) k' =
    option_map (fun x => x ++ newline :: s2) (star_greedy true cs s1 k).
Proof.
  intros Hcs k k' Hk. induction s1 as [|c s1 IH]; cbn [app star_greedy].
  - rewrite (newline_rejected cs Hcs). apply (Hk []).
  - destruct (accepts true cs c); [|apply (Hk (c :: s1))].
    rewrite IH. destruct (star_greedy true cs s1 k); [reflexivity |].
    apply (Hk (c :: s1)).
Qed.

Lemma star_lazy_line cs s1 s2 :
  newline_free_set cs = true ->
  forall k k',
    (forall t, k' (t ++ newline :: s2) =
               option_map (fun x => x ++ newline :: s2) (k t)) ->
    star_lazy true cs (s1 ++ newline :: s2) k' =
    option_map (fun x => x ++ newline :: s2) (star_lazy true cs s1 k).
Proof.
  intros Hcs k k' Hk. induction s1 as [|c s1 IH]; cbn [app star_lazy].
  - pose proof (Hk []) as H0. cbn [app] in H0. rewrite H0.
    destruct (k []); [reflexivity |]. cbn [option_map].
    rewrite (newline_rejected cs Hcs). reflexivity.
  - pose proof (Hk (c :: s1)) as H0. cbn [app] in H0. rewrite H0.
    destruct (k (c :: s1)); [reflexivity |]. cbn [option_map].
    destruct (accepts true cs c); [exact IH | reflexivity].
Qed.

Lemma rmatch_line r s2 :
  single_line r = true ->
  forall s1 k k',
    (forall t, k' (t ++ newline :: s2) =
               option_map (fun x => x ++ newline :: s2) (k t)) ->
    rmatch true r (s1 ++ newline :: s2) k' =
    option_map (fun x => x ++ newline :: s2) (rmatch true r s1 k).
Proof.
  induction r as [|cs|r1 IH1 r2 IH2|r1 IH1 r2 IH2|greedy cs];
    cbn [single_line]; intros Hr s1 k k' Hk; cbn [rmatch].
  - apply Hk.
  - destruct s1 as [|c s1]; cbn [app].
    + rewrite (newline_rejected cs Hr). reflexivity.
    + destruct (accepts true cs c); [apply Hk | reflexivity].
  - apply andb_true_iff in Hr as [H1 H2].
    apply (IH1 H1). intros t. apply (IH2 H2), Hk.
  - apply andb_true_iff in Hr as [H1 H2].
    rewrite (IH1 H1 s1 k k' Hk). destruct (rmatch true r1 s1 k); [reflexivity |].
    apply (IH2 H2), Hk.
  - destruct greedy; [apply star_greedy_line | apply star_lazy_line]; assumption.
Qed.

Lemma match_len_line r s1 s2 :
  single_line r = true ->
  match_len true r (s1 ++ newline :: s2) = match_len true r s1.
Proof.
  intros Hr. unfold match_len.
  rewrite (rmatch_line r s2 Hr s1 Some Some) by reflexivity.
  destruct (rmatch true r s1 Some); cbn [option_map]; [|reflexivity].
  rewrite !length_app. f_equal. lia.
Qed.

Lemma match_len_nonempty_line r s1 s2 :
  single_line r = true ->
  match_len_nonempty true r (s1 ++ newline :: s2) = match_len_nonempty true r s1.
Proof.
  intros Hr. unfold match_len_nonempty.
  rewrite (rmatch_line r s2 Hr s1
             (fun rest => if length rest <? length s1 then Some rest else None)).
  - destruct (rmatch true r s1 _); cbn [option_map]; [|reflexivity].
    rewrite !length_app. f_equal. lia.
  - intros t. rewrite !length_app.
    destruct (length t <? length s1) eqn:E.
    + apply Nat.ltb_lt in E.
      destruct (_ <? _) eqn:E'; [reflexivity | apply Nat.ltb_ge in E'; lia].
    + apply Nat.ltb_ge in E.
      destruct (_ <? _) eqn:E'; [apply Nat.ltb_lt in E'; lia | reflexivity].
Qed.

Lemma match_len_at_end r :
  match match_len true r [] with Some (S _) => False | _ => True end /\
  match match_len_nonempty true r [] with Some (S _) => False | _ => True end.
Proof.
  unfold match_len, match_len_nonempty. cbn [length].
  split; destruct (rmatch true r [] _); exact I.
Qed.

Lemma sub_scan_line r s2 :
  single_line r = true ->
  forall s1 n, n <= length s1 ->
    sub_scan true r [] (s1 ++ newline :: s2) n =
    sub_scan true r [] s1 n ++ newline :: sub_scan true r [] s2 0.
Proof.
  intros Hr. induction s1 as [|c s1 IH]; intros n Hn.
  - simpl in Hn. replace n with 0 by lia. cbn [app].
    change (sub_scan true r [] (newline :: s2) 0) with
      (match match_len true r ([] ++ newline :: s2) with
       | Some (S n) => [] ++ sub_scan true r [] s2 n
       | Some O =>
           [] ++
           match match_len_nonempty true r ([] ++ newline :: s2) with
           | Some (S n) => [] ++ sub_scan true r [] s2 n
           | _ => newline :: sub_scan true r [] s2 0
           end
       | None => newline :: sub_scan true r [] s2 0
       end).
    rewrite (match_len_line r [] s2 Hr), (match_len_nonempty_line r [] s2 Hr).
    destruct (match_len_at_end r) as [H1 H2]. cbn [sub_scan].
    destruct (match_len true r []) as [[|m]|]; [|contradiction |reflexivity].
    destruct (match_len_nonempty true r []) as [[|m]|];
      [reflexivity | contradiction | reflexivity].
  - destruct n as [|n].
    + change (sub_scan true r [] ((c :: s1) ++ newline :: s2) 0) with
        (match match_len true r ((c :: s1) ++ newline :: s2) with
         | Some (S n) => [] ++ sub_scan true r [] (s1 ++ newline :: s2) n
         | Some O =>
             [] ++
             match match_len_nonempty true r ((c :: s1) ++ newline :: s2) with
             | Some (S n) => [] ++ sub_scan true r [] (s1 ++ newline :: s2) n
             | _ => c :: sub_scan true r [] (s1 ++ newline :: s2) 0
             end
         | None => c :: sub_scan true r [] (s1 ++ newline :: s2) 0
         end).
      rewrite (match_len_line r _ s2 Hr), (match_len_nonempty_line r _ s2 Hr).
      cbn [sub_scan].
      assert (Hm : forall m, match_len true r (c :: s1) = Some (S m) ->
                             m <= length s1).
      { unfold match_len. intros m. destruct (rmatch true r (c :: s1) Some);
          [|discriminate]. intros [= H]. simpl in H. lia. }
      assert (Hm' : forall m, match_len_nonempty true r (c :: s1) = Some (S m) ->
                              m <= length s1).
      { unfold match_len_nonempty. intros m.
        destruct (rmatch true r (c :: s1) _); [|discriminate].
        intros [= H]. simpl in H. lia. }
      destruct (match_len true r (c :: s1)) as [[|m]|]; cbn [app].
      * destruct (match_len_nonempty true r (c :: s1)) as [[|m]|]; cbn [app].
        -- rewrite IH by lia. reflexivity.
        -- apply IH, Hm'. reflexivity.
        -- rewrite IH by lia. reflexivity.
      * apply IH, Hm. reflexivity.
      * rewrite IH by lia. reflexivity.
    + cbn [app sub_scan]. apply IH. simpl in Hn. lia.
Qed.

Lemma strip_patterns_line ps :
  forallb single_line ps = true ->
  forall s1 s2,
    strip_patterns ps (s1 ++ newline :: s2) =
    strip_patterns ps s1 ++ newline :: strip_patterns ps s2.
Proof.
  unfold strip_patterns. induction ps as [|p ps IH]; intros Hps s1 s2;
    cbn [fold_left]; [reflexivity |].
  cbn [forallb] in Hps. apply andb_true_iff in Hps as [Hp Hps].
  change (re_sub true p [] (s1 ++ newline :: s2))
    with (sub_scan true p [] (s1 ++ newline :: s2) 0).
  rewrite (sub_scan_line p s2 Hp s1 0) by lia.
  apply (IH Hps).
Qed.

(** X4. The loop over the file patterns works line by line: what it makes of
    two lines joined by a newline is what it makes of each line, joined by
    the newline.  No match spans a line break and no removal on one line
    changes another line. *)
Theorem patterns_work_line_by_line (s1 s2 : text) :
  strip_patterns patterns (s1 ++ newline :: s2) =
  strip_patterns patterns s1 ++ newline :: strip_patterns patterns s2.
Proof. apply strip_patterns_line. reflexivity. Qed.

(* ------------------------------------------------------------------ *)
(** ** More on the tool assembler *)

Lemma underscore_char c :
  let d := if Ascii.eqb c " " || Ascii.eqb c "-" then "_"%char else c in
  d <> " "%char /\ d <> "-"%char /\
  (if Ascii.eqb d " " || Ascii.eqb d "-" then "_"%char else d) = d.
Proof.
  cbv zeta. destruct (Ascii.eqb c " ") eqn:E1; [repeat split; discriminate |].
  destruct (Ascii.eqb c "-") eqn:E2; [repeat split; discriminate |].
  cbn [orb]. rewrite E1, E2. cbn [orb].
  apply Ascii.eqb_neq in E1, E2. auto.
Qed.

(** X6. A tool name has the length of the display name, holds neither a space
    nor a hyphen, and normalising it again changes nothing. *)
Theorem normalized_name_properties (cfg : SubAgentConfig) :
  String.length (normalized_name cfg) = String.length (config_name cfg) /\
  (forall c, In c (list_ascii_of_string (normalized_name cfg)) ->
     c <> " "%char /\ c <> "-"%char) /\
  replace "-" "_" (replace " " "_" (normalized_name cfg)) = normalized_name cfg.
Proof.
  unfold normalized_name. rewrite !replace_both.
  unfold spaces_hyphens_to_underscores. rewrite !string_length_text.
  rewrite !list_ascii_of_string_of_list_ascii.
  set (l := list_ascii_of_string (config_name cfg)).
  split; [apply length_map |]. split.
  - intros c Hc. apply in_map_iff in Hc as [x [<- _]].
    destruct (underscore_char x) as (H1 & H2 & _). auto.
  - f_equal. rewrite map_map. apply map_ext. intros x.
    apply (underscore_char x).
Qed.

Lemma TOOLS_uc_tools toolkit inc : TOOLS toolkit inc = uc_tools toolkit inc.
Proof. unfold TOOLS. rewrite uc_loop. reflexivity. Qed.

(** X7. The module-level [TOOLS] list is the leading part of the supervisor's
    tool list; one tool per served-agent descriptor follows; with no such
    descriptor the two lists coincide. *)
Theorem domain_tools_extend_TOOLS toolkit ext inc :
  firstn (length (TOOLS toolkit inc)) (build_domain_tools toolkit ext inc) =
    TOOLS toolkit inc /\
  length (build_domain_tools toolkit ext inc) =
    length (TOOLS toolkit inc) + length ext /\
  build_domain_tools toolkit [] inc = TOOLS toolkit inc.
Proof.
  rewrite TOOLS_uc_tools.
  destruct (build_domain_tools_shape toolkit ext inc) as [ts [Heq Hall]].
  rewrite Heq. split; [|split].
  - rewrite firstn_app, firstn_all, Nat.sub_diag. simpl. apply app_nil_r.
  - rewrite length_app. f_equal. symmetry. apply (Forall2_length _ _ _ Hall).
  - unfold build_domain_tools. cbn [fold_left domain_tools].
    apply uc_loop.
Qed.

(* ------------------------------------------------------------------ *)
(** ** The post-model hook *)

(** X8. [stringify_content] fails on an empty message list; otherwise it leaves
    the list and every message but the last alone, leaves a last message
    whose content is a string alone, turns a block list into a string, and
    has nothing left to do when run again. *)
Theorem stringify_content_effect {Block : Type}
    (json_dumps : list Block -> string) (st : ref -> message_content Block) :
  stringify_content json_dumps st [] = None /\
  forall pre r,
    exists st',
      stringify_content json_dumps st (pre ++ [r]) = Some (st', pre ++ [r]) /\
      (forall r', r' <> r -> st' r' = st r') /\
      (forall s, st r = StrContent s -> st' = st) /\
      (forall blocks,
         st r = ListContent blocks -> st' r = StrContent (json_dumps blocks)) /\
      stringify_content json_dumps st' (pre ++ [r]) = Some (st', pre ++ [r]).
Proof.
  split; [reflexivity |]. intros pre r. unfold stringify_content.
  rewrite last_snoc. destruct (st r) as [s | blocks] eqn:E.
  - exists st. rewrite E. split; [reflexivity |]. split; [reflexivity |].
    split; [reflexivity |]. split; [discriminate | reflexivity].
  - exists (fun r' => if r' =? r then StrContent (json_dumps blocks) else st r').
    rewrite E. cbn beta. rewrite Nat.eqb_refl.
    split; [reflexivity |]. split; [|split; [|split]].
    + intros r' Hne. apply Nat.eqb_neq in Hne. rewrite Hne. reflexivity.
    + discriminate.
    + intros b [= <-]. reflexivity.
    + reflexivity.
Qed.

(* ------------------------------------------------------------------ *)
(** ** More on the translation of one message *)

Lemma function_call_items_with_id m i calls :
  (forall n, id_or_uuid m n = (i, n)) ->
  forall n,
    snd (function_call_items m calls n) = n /\
    Forall (fun it => item_id_of it = Some i) (fst (function_call_items m calls n)) /\
    omap reported_call (fst (function_call_items m calls n)) = calls.
Proof.
  intros Hid. induction calls as [|tc calls IH]; intros n;
    cbn [function_call_items].
  - repeat split. constructor.
  - rewrite Hid. destruct (IH n) as (Hn & Hall & Hcalls).
    destruct (function_call_items m calls n) as [rest n2]. cbn [fst snd] in *.
    split; [exact Hn |]. split; [constructor; [reflexivity | exact Hall] |].
    cbn [omap list_omap reported_call]. rewrite Hcalls.
    destruct tc; reflexivity.
Qed.

Lemma function_call_items_fresh m calls :
  (forall n, id_or_uuid m n = (Uuid4 n, S n)) ->
  forall n,
    snd (function_call_items m calls n) = n + length calls /\
    omap item_id_of (fst (function_call_items m calls n)) =
      map Uuid4 (seq n (length calls)) /\
    omap reported_call (fst (function_call_items m calls n)) = calls.
Proof.
  intros Hid. induction calls as [|tc calls IH]; intros n;
    cbn [function_call_items].
  - repeat split. simpl. lia.
  - rewrite Hid. destruct (IH (S n)) as (Hn & Hids & Hcalls).
    destruct (function_call_items m calls (S n)) as [rest n2].
    cbn [fst snd] in *.
    split; [simpl; lia |].
    split.
    + cbn [omap list_omap item_id_of length seq map]. rewrite Hids. reflexivity.
    + cbn [omap list_omap reported_call]. rewrite Hcalls.
      destruct tc; reflexivity.
Qed.

(** X10. A message with a non-empty identifier draws no fresh identifier, and
    every text or function-call item of it carries the message's own. *)
Theorem items_carry_message_id m n c s :
  msg_id m = Some (String c s) ->
  snd (_langchain_to_responses m n) = n /\
  Forall (fun it => item_id_of it = None \/
                    item_id_of it = Some (MessageId (String c s)))
    (fst (_langchain_to_responses m n)).
Proof.
  intros Hid.
  assert (Hget : forall k, id_or_uuid m k = (MessageId (String c s), k)).
  { intros k. unfold id_or_uuid. rewrite Hid. reflexivity. }
  unfold _langchain_to_responses.
  destruct (String.eqb (msg_type m) "ai").
  - destruct (content m) as [|c0 s0].
    + destruct (function_call_items_with_id m _ (tool_calls m) Hget n)
        as (Hn & Hall & _).
      destruct (function_call_items m (tool_calls m) n) as [out2 n2].
      cbn [fst snd app] in *. split; [exact Hn |].
      eapply List.Forall_impl; [|exact Hall]. auto.
    + rewrite Hget.
      destruct (function_call_items_with_id m _ (tool_calls m) Hget n)
        as (Hn & Hall & _).
      destruct (function_call_items m (tool_calls m) n) as [out2 n2].
      cbn [fst snd app] in *. split; [exact Hn |].
      constructor; [right; reflexivity |].
      eapply List.Forall_impl; [|exact Hall]. auto.
  - destruct (String.eqb (msg_type m) "tool"); cbn [fst snd].
    + split; [reflexivity |]. constructor; [left; reflexivity | constructor].
    + split; [reflexivity | constructor].
Qed.

Lemma items_carry_message_id_witness :
  msg_id (sample_store 1) = Some "a1" /\
  snd (_langchain_to_responses (sample_store 1) 5) = 5 /\
  Forall (fun it => item_id_of it = None \/
                    item_id_of it = Some (MessageId "a1"))
    (fst (_langchain_to_responses (sample_store 1) 5)).
Proof.
  split; [reflexivity |].
  exact (items_carry_message_id (sample_store 1) 5 "a" "1" eq_refl).
Defined.

(** X11. A message without identifier (absent or empty) gets one fresh
    identifier per text or function-call item, so its items never share
    one. *)
Theorem items_without_id_get_fresh_ids m n :
  msg_id m = None \/ msg_id m = Some "" ->
  exists k,
    omap item_id_of (fst (_langchain_to_responses m n)) = map Uuid4 (seq n k) /\
    snd (_langchain_to_responses m n) = n + k /\
    NoDup (omap item_id_of (fst (_langchain_to_responses m n))).
Proof.
  intros Hid.
  assert (Hget : forall k, id_or_uuid m k = (Uuid4 k, S k)).
  { intros k. unfold id_or_uuid. destruct Hid as [-> | ->]; reflexivity. }
  assert (Hnd : forall a k, NoDup (map Uuid4 (seq a k))).
  { intros a k. apply NoDup_fmap_2; [intros x y [= ->]; reflexivity |].
    apply NoDup_ListNoDup, List.seq_NoDup. }
  cut (exists k,
    omap item_id_of (fst (_langchain_to_responses m n)) = map Uuid4 (seq n k) /\
    snd (_langchain_to_responses m n) = n + k).
  { intros (k & H1 & H2). exists k. rewrite H1. auto. }
  unfold _langchain_to_responses.
  destruct (String.eqb (msg_type m) "ai").
  - destruct (content m) as [|c0 s0].
    + destruct (function_call_items_fresh m (tool_calls m) Hget n)
        as (Hn & Hids & _).
      destruct (function_call_items m (tool_calls m) n) as [out2 n2].
      cbn [fst snd app] in *. eauto.
    + rewrite Hget.
      destruct (function_call_items_fresh m (tool_calls m) Hget (S n))
        as (Hn & Hids & _).
      destruct (function_call_items m (tool_calls m) (S n)) as [out2 n2].
      cbn [fst snd app] in *. exists (S (length (tool_calls m))).
      split; [|lia].
      cbn [omap list_omap item_id_of seq map]. rewrite Hids. reflexivity.
  - destruct (String.eqb (msg_type m) "tool"); cbn [fst snd].
    + exists 0. split; [reflexivity | lia].
    + exists 0. split; [reflexivity | lia].
Qed.

Lemma items_without_id_get_fresh_ids_witness :
  (msg_id (mkMessage "ai" None "Done." [mkToolCall "c1" "ls" "{}"] "") = None \/
   msg_id (mkMessage "ai" None "Done." [mkToolCall "c1" "ls" "{}"] "") = Some "") /\
  exists k,
    omap item_id_of
      (fst (_langchain_to_responses
              (mkMessage "ai" None "Done." [mkToolCall "c1" "ls" "{}"] "") 0)) =
      map Uuid4 (seq 0 k) /\
    snd (_langchain_to_responses
           (mkMessage "ai" None "Done." [mkToolCall "c1" "ls" "{}"] "") 0) = 0 + k /\
    NoDup (omap item_id_of
             (fst (_langchain_to_responses
                     (mkMessage "ai" None "Done." [mkToolCall "c1" "ls" "{}"] "") 0))).
Proof.
  split; [left; reflexivity |].
  exact (items_without_id_get_fresh_ids
           (mkMessage "ai" None "Done." [mkToolCall "c1" "ls" "{}"] "") 0
           (or_introl eq_refl)).
Defined.

(** X9. The items of an assistant message are its text, when it has any,
    followed by one function-call item per tool call, in order and with the
    call's id, name and arguments; a tool message gives one
    function-call-output item; any other message gives nothing. *)
Theorem translation_shape m n :
  (msg_type m = "ai" ->
     omap reported_call (fst (_langchain_to_responses m n)) = tool_calls m /\
     length (fst (_langchain_to_responses m n)) =
       (match content m with EmptyString => 0 | _ => 1 end)
       + length (tool_calls m) /\
     (content m <> "" ->
      exists i, head (fst (_langchain_to_responses m n)) =
                Some (text_output_item (content m) i))) /\
  (msg_type m = "tool" ->
     _langchain_to_responses m n =
       ([function_call_output_item (tool_call_id m) (content m)], n)) /\
  (msg_type m <> "ai" -> msg_type m <> "tool" ->
     _langchain_to_responses m n = ([], n)).
Proof.
  assert (Hcalls : forall k,
            omap reported_call (fst (function_call_items m (tool_calls m) k))
              = tool_calls m).
  { generalize (tool_calls m). intros calls.
    induction calls as [|tc calls IH]; intros k; cbn [function_call_items];
      [reflexivity |].
    destruct (id_or_uuid m k) as [i n1]. specialize (IH n1).
    destruct (function_call_items m calls n1) as [rest n2]. cbn [fst] in *.
    cbn [omap list_omap reported_call]. rewrite IH. destruct tc; reflexivity. }
  assert (Hlen : forall k,
            length (fst (function_call_items m (tool_calls m) k))
              = length (tool_calls m)).
  { generalize (tool_calls m). intros calls.
    induction calls as [|tc calls IH]; intros k; cbn [function_call_items];
      [reflexivity |].
    destruct (id_or_uuid m k) as [i n1]. specialize (IH n1).
    destruct (function_call_items m calls n1) as [rest n2]. cbn [fst] in *.
    simpl. rewrite IH. reflexivity. }
  unfold _langchain_to_responses. split; [|split].
  - intros Ht. rewrite Ht. change (String.eqb "ai" "ai") with true. cbn iota.
    destruct (content m) as [|c0 s0].
    + specialize (Hcalls n). specialize (Hlen n).
      destruct (function_call_items m (tool_calls m) n) as [out2 n2].
      cbn [fst app] in *. split; [exact Hcalls |]. split; [exact Hlen |].
      intros H. contradiction.
    + destruct (id_or_uuid m n) as [i n1].
      specialize (Hcalls n1). specialize (Hlen n1).
      destruct (function_call_items m (tool_calls m) n1) as [out2 n2].
      cbn [fst app] in *. split; [exact Hcalls |].
      split; [simpl; rewrite Hlen; reflexivity |].
      intros _. exists i. reflexivity.
  - intros Ht. rewrite Ht. reflexivity.
  - intros H1 H2. apply String.eqb_neq in H1, H2. rewrite H1, H2. reflexivity.
Qed.

(* ------------------------------------------------------------------ *)
(** ** The adapter: splitting a stream *)

Lemma stream_loop_app pre :
  forall rest st a,
    outcome (stream_loop pre st a) = Exhausted ->
    log (stream_loop (pre ++ rest) st a) =
      log (stream_loop pre st a) ++
      log (stream_loop rest (final_store (stream_loop pre st a))
             (final (stream_loop pre st a))) /\
    final (stream_loop (pre ++ rest) st a) =
      final (stream_loop rest (final_store (stream_loop pre st a))
               (final (stream_loop pre st a))) /\
    outcome (stream_loop (pre ++ rest) st a) =
      outcome (stream_loop rest (final_store (stream_loop pre st a))
                 (final (stream_loop pre st a))).
Proof.
  induction pre as [|c pre IH]; intros rest st a Ho; [auto |].
  cbn [app stream_loop] in *.
  destruct (String.eqb (event_name c) "updates").
  - destruct (announce a c) as [[a1 l1]|]; [|discriminate Ho].
    destruct (surface_nodes (runs c st) (events c) a1) as [a2 l2].
    cbn [log final final_store outcome] in *.
    destruct (IH rest (runs c st) (clear_first_name a2) Ho) as (Hl & Hf & Hout).
    rewrite Hl, Hf, Hout, <- !app_assoc. auto.
  - apply IH, Ho.
Qed.

Lemma stream_loop_store pre :
  forall st a,
    outcome (stream_loop pre st a) = Exhausted ->
    final_store (stream_loop pre st a) = store_after pre st.
Proof.
  induction pre as [|c pre IH]; intros st a Ho; [reflexivity |].
  cbn [stream_loop store_after fold_left] in *.
  destruct (String.eqb (event_name c) "updates").
  - destruct (announce a c) as [[a1 l1]|]; [|discriminate Ho].
    destruct (surface_nodes (runs c st) (events c) a1) as [a2 l2].
    cbn [final_store outcome] in *. apply (IH _ _ Ho).
  - apply (IH _ _ Ho).
Qed.

Lemma stream_loop_first_name pre :
  forall st a,
    pre <> [] -> outcome (stream_loop pre st a) = Exhausted ->
    first_name (final (stream_loop pre st a)) = false.
Proof.
  assert (Hany : forall pre st a, first_name a = false ->
            first_name (final (stream_loop pre st a)) = false).
  { clear. induction pre as [|c pre IH]; intros st a Ha; [exact Ha |].
    cbn [stream_loop].
    destruct (String.eqb (event_name c) "updates").
    - destruct (announce a c) as [[a1 l1]|]; [|exact Ha].
      destruct (surface_nodes (runs c st) (events c) a1) as [a2 l2].
      cbn [final]. apply IH. reflexivity.
    - apply IH. reflexivity. }
  destruct pre as [|c pre]; intros st a Hne Ho; [contradiction |].
  cbn [stream_loop] in *.
  destruct (String.eqb (event_name c) "updates").
  - destruct (announce a c) as [[a1 l1]|]; [|discriminate Ho].
    destruct (surface_nodes (runs c st) (events c) a1) as [a2 l2].
    cbn [final]. apply Hany. reflexivity.
  - apply Hany. reflexivity.
Qed.

(** X13. An update event with an empty dict that is not the first event stops
    the generator with an IndexError: what was yielded before it stands,
    nothing follows, and [predict] returns nothing.  The same event in
    first position does not raise. *)
Theorem empty_update_raises prior pre c post st custom_inputs :
  names_a_node pre -> pre <> [] ->
  is_update c = true -> events c = [] ->
  outcome (predict_stream_run prior (pre ++ c :: post) st) = IndexError /\
  log (predict_stream_run prior (pre ++ c :: post) st) =
    log (predict_stream_run prior pre st) /\
  predict prior (pre ++ c :: post) st custom_inputs = None /\
  outcome (predict_stream_run prior [c] st) = Exhausted.
Proof.
  intros Hwf Hne Hup Hev. unfold predict, predict_stream_run.
  set (a0 := mkAdapter true ∅ 0 prior).
  destruct (stream_loop_exhausted pre st a0 Hwf) as (Ho & _ & _).
  destruct (stream_loop_app pre (c :: post) st a0 Ho) as (Hl & _ & Hout).
  pose proof (stream_loop_first_name pre st a0 Hne Ho) as Hf.
  assert (Htail : forall st' a',
            first_name a' = false ->
            stream_loop (c :: post) st' a' = mkRun [] a' (runs c st') IndexError).
  { intros st' a' Ha. cbn [stream_loop]. unfold is_update in Hup.
    rewrite Hup. unfold announce. rewrite Ha, Hev. reflexivity. }
  rewrite Htail in Hl, Hout by exact Hf. cbn [log outcome] in Hl, Hout.
  rewrite Hout, Hl, app_nil_r.
  split; [reflexivity |]. split; [reflexivity |]. split; [reflexivity |].
  cbn [stream_loop]. unfold is_update in Hup. rewrite Hup.
  unfold announce. cbn [first_name]. rewrite Hev. reflexivity.
Qed.

Lemma empty_update_raises_witness :
  names_a_node sample_stream /\ sample_stream <> [] /\
  is_update (mkChunk (fun st => st) "updates" []) = true /\
  events (mkChunk (fun st => st) "updates" []) = [] /\
  outcome (predict_stream_run None
             (sample_stream ++ mkChunk (fun st => st) "updates" [] :: [])
             sample_store) = IndexError /\
  log (predict_stream_run None
         (sample_stream ++ mkChunk (fun st => st) "updates" [] :: [])
         sample_store) =
    log (predict_stream_run None sample_stream sample_store) /\
  predict None (sample_stream ++ mkChunk (fun st => st) "updates" [] :: [])
    sample_store None = None /\
  outcome (predict_stream_run None [mkChunk (fun st => st) "updates" []]
             sample_store) = Exhausted.
Proof.
  assert (H1 : names_a_node sample_stream).
  { unfold names_a_node, sample_stream, supervisor_with_formatter.
    repeat constructor; discriminate. }
  assert (H2 : sample_stream <> []) by discriminate.
  split; [exact H1 |]. split; [exact H2 |].
  split; [reflexivity |]. split; [reflexivity |].
  exact (empty_update_raises None sample_stream
           (mkChunk (fun st => st) "updates" []) [] sample_store None
           H1 H2 eq_refl eq_refl).
Defined.

(* ------------------------------------------------------------------ *)
(** ** predict and the yielded events *)

Lemma yielded_events_done l :
  Forall well_labelled l ->
  Forall (fun e => String.eqb (event_type e) "response.output_item.done" = true)
    (concat (map yielded_by l)).
Proof.
  induction 1 as [|e l He _ IH]; [constructor |].
  cbn [map concat]. apply Forall_app. split; [|exact IH].
  destruct e as [node e | mid es]; cbn [yielded_by].
  - destruct He as [_ [k ->]]. constructor; [reflexivity | constructor].
  - destruct He as (m & n & _ & ->). apply List.Forall_map.
    apply List.Forall_forall. intros it _. reflexivity.
Qed.

Lemma filter_all {A} (f : A -> bool) l :
  Forall (fun x => f x = true) l -> List.filter f l = l.
Proof.
  induction 1 as [|x l Hx _ IH]; simpl; [reflexivity |].
  rewrite Hx, IH. reflexivity.
Qed.

(** X12. On a stream whose events each name a node, the output of [predict] is
    the items of all the events [predict_stream] yields, in order: the
    filter on the event type drops nothing. *)
Theorem predict_output_is_stream prior gen st custom_inputs :
  names_a_node gen ->
  exists resp,
    predict prior gen st custom_inputs = Some resp /\
    output resp = map item (predict_stream prior gen st).
Proof.
  intros Hwf. unfold predict, predict_stream, predict_stream_run.
  destruct (stream_loop_exhausted gen st (mkAdapter true ∅ 0 prior) Hwf)
    as (Ho & _ & _).
  rewrite Ho. eexists. split; [reflexivity |]. cbn [output].
  rewrite filter_all; [reflexivity |].
  apply yielded_events_done.
  apply (stream_loop_grows gen st (mkAdapter true ∅ 0 prior)).
Qed.

Lemma predict_output_is_stream_witness :
  names_a_node sample_stream /\
  exists resp,
    predict None sample_stream sample_store None = Some resp /\
    output resp = map item (predict_stream None sample_stream sample_store).
Proof.
  assert (H : names_a_node sample_stream).
  { unfold names_a_node, sample_stream, supervisor_with_formatter.
    repeat constructor; discriminate. }
  split; [exact H |].
  exact (predict_output_is_stream None sample_stream sample_store None H).
Defined.

(* ------------------------------------------------------------------ *)
(** ** The adapter on the compiled graph, continued *)

Lemma compiled_graph_names_a_node supervisor update state :
  names_a_node (supervisor_with_formatter supervisor update state).
Proof.
  unfold names_a_node, supervisor_with_formatter.
  repeat constructor; discriminate.
Qed.

(** X15. On the stream of the compiled graph no node name is ever announced:
    the supervisor's event is the first one and the other one is the
    formatter's. *)
Theorem compiled_graph_announces_nothing prior supervisor update state st :
  announced
    (log (predict_stream_run prior
            (supervisor_with_formatter supervisor update state) st)) = [] /\
  outcome
    (predict_stream_run prior
       (supervisor_with_formatter supervisor update state) st) = Exhausted.
Proof.
  unfold predict_stream_run.
  destruct (stream_loop_exhausted _ st (mkAdapter true ∅ 0 prior)
              (compiled_graph_names_a_node supervisor update state))
    as (Ho & _ & Hann).
  rewrite Hann. split; [reflexivity | exact Ho].
Qed.

(** X16. On the stream of the compiled graph [predict] always reports an empty
    file mapping: the node data retained last is the formatter's, which
    has no "files" key, whatever files the supervisor's update carries. *)
Theorem compiled_graph_files_empty
    prior supervisor update state st custom_inputs :
  exists resp,
    predict prior (supervisor_with_formatter supervisor update state) st
      custom_inputs = Some resp /\
    custom_outputs resp !! "files" = Some (PyFiles ∅).
Proof.
  unfold predict, predict_stream_run.
  destruct (stream_loop_exhausted _ st (mkAdapter true ∅ 0 prior)
              (compiled_graph_names_a_node supervisor update state))
    as (Ho & Hfin & _).
  rewrite Ho, Hfin. eexists. split; [reflexivity |].
  cbn [custom_outputs]. rewrite lookup_insert_eq. reflexivity.
Qed.

(* ------------------------------------------------------------------ *)
(** ** The adapter: every identifier is surfaced *)

Lemma surface_messages_covers st msgs :
  forall a r,
    r ∈ msgs -> msg_id (st r) ∈ seen_ids (fst (surface_messages st msgs a)).
Proof.
  induction msgs as [|r0 msgs IH]; intros a r Hr; [inversion Hr |].
  pose proof (surface_messages_grows st (r0 :: msgs) a) as (Hsub & _).
  cbn [surface_messages] in *. apply elem_of_cons in Hr as [-> | Hr].
  - case_bool_decide as Hseen; [set_solver |].
    destruct (_langchain_to_responses (st r0) (uuids a)) as [items n].
    pose proof (surface_messages_grows st msgs
                  (mkAdapter (first_name a) ({[msg_id (st r0)]} ∪ seen_ids a) n
                     (_final_state a))) as (Hs2 & _).
    destruct (surface_messages st msgs _) as [a2 l]. cbn [fst seen_ids] in *.
    set_solver.
  - case_bool_decide as Hseen; [apply IH, Hr |].
    destruct (_langchain_to_responses (st r0) (uuids a)) as [items n].
    specialize (IH (mkAdapter (first_name a) ({[msg_id (st r0)]} ∪ seen_ids a) n
                      (_final_state a)) r Hr).
    destruct (surface_messages st msgs _) as [a2 l]. exact IH.
Qed.

Lemma surface_messages_all_seen st msgs :
  forall a,
    (forall r, r ∈ msgs -> msg_id (st r) ∈ seen_ids a) ->
    surface_messages st msgs a = (a, []).
Proof.
  induction msgs as [|r0 msgs IH]; intros a H; [reflexivity |].
  cbn [surface_messages].
  rewrite bool_decide_eq_true_2 by (apply H, elem_of_cons; auto).
  apply IH. intros r Hr. apply H, elem_of_cons. auto.
Qed.

Lemma surface_nodes_covers st nodes :
  forall a name nd r,
    In (name, nd) nodes -> r ∈ messages nd ->
    msg_id (st r) ∈ seen_ids (fst (surface_nodes st nodes a)).
Proof.
  induction nodes as [|[name0 nd0] nodes IH]; intros a name nd r Hin Hr;
    [destruct Hin |].
  cbn [surface_nodes].
  pose proof (surface_messages_covers st (messages nd0)
                (mkAdapter (first_name a) (seen_ids a) (uuids a) (Some nd0)))
    as Hc.
  destruct (surface_messages st (messages nd0) _) as [a1 l1].
  pose proof (surface_nodes_grows st nodes a1) as (Hsub & _).
  specialize (IH a1). destruct (surface_nodes st nodes a1) as [a2 l2].
  cbn [fst] in *. destruct Hin as [[= <- <-] | Hin].
  - specialize (Hc r Hr). set_solver.
  - apply (IH name nd r Hin Hr).
Qed.

Lemma grows_exact_app (s1 s2 s3 : gset (option string)) l1 l2 :
  (forall mid, mid ∈ s2 -> mid ∈ s1 \/ mid ∈ surfaced_ids l1) ->
  (forall mid, mid ∈ s3 -> mid ∈ s2 \/ mid ∈ surfaced_ids l2) ->
  forall mid, mid ∈ s3 -> mid ∈ s1 \/ mid ∈ surfaced_ids (l1 ++ l2).
Proof.
  intros H1 H2 mid H3. rewrite surfaced_ids_app.
  destruct (H2 mid H3) as [H | H]; [|right; apply elem_of_app; auto].
  destruct (H1 mid H) as [H' | H']; [auto | right; apply elem_of_app; auto].
Qed.

(** Nothing enters the seen set but the identifiers that are surfaced. *)
Lemma surface_messages_exact st msgs :
  forall a mid,
    mid ∈ seen_ids (fst (surface_messages st msgs a)) ->
    mid ∈ seen_ids a \/ mid ∈ surfaced_ids (snd (surface_messages st msgs a)).
Proof.
  induction msgs as [|r msgs IH]; intros a mid; cbn [surface_messages];
    [auto |].
  case_bool_decide as Hseen; [apply IH |].
  destruct (_langchain_to_responses (st r) (uuids a)) as [items n].
  specialize (IH (mkAdapter (first_name a) ({[msg_id (st r)]} ∪ seen_ids a) n
                    (_final_state a)) mid).
  destruct (surface_messages st msgs _) as [a2 l]. cbn [fst snd seen_ids] in *.
  intros H. cbn [surfaced_ids flat_map app]. fold (surfaced_ids l).
  destruct (IH H) as [Hs | Hs]; [|right; apply elem_of_cons; auto].
  apply elem_of_union in Hs as [Hs | Hs]; [|auto].
  apply elem_of_singleton in Hs. right. apply elem_of_cons. auto.
Qed.

Lemma surface_nodes_exact st nodes :
  forall a mid,
    mid ∈ seen_ids (fst (surface_nodes st nodes a)) ->
    mid ∈ seen_ids a \/ mid ∈ surfaced_ids (snd (surface_nodes st nodes a)).
Proof.
  induction nodes as [|[name nd] nodes IH]; intros a mid; cbn [surface_nodes];
    [auto |].
  pose proof (surface_messages_exact st (messages nd)
                (mkAdapter (first_name a) (seen_ids a) (uuids a) (Some nd)))
    as H1.
  destruct (surface_messages st (messages nd) _) as [a1 l1].
  specialize (IH a1). destruct (surface_nodes st nodes a1) as [a2 l2].
  cbn [fst snd seen_ids] in *.
  apply (grows_exact_app _ _ _ _ _ H1 IH).
Qed.

Lemma stream_loop_exact gen :
  forall st a mid,
    mid ∈ seen_ids (final (stream_loop gen st a)) ->
    mid ∈ seen_ids a \/ mid ∈ surfaced_ids (log (stream_loop gen st a)).
Proof.
  induction gen as [|c gen IH]; intros st a; cbn [stream_loop]; [auto |].
  destruct (String.eqb (event_name c) "updates").
  - destruct (announce a c) as [[a1 l1]|] eqn:Ha; [|auto].
    apply announce_some in Ha as (Hs & _ & _ & _ & _).
    pose proof (surface_nodes_exact (runs c st) (events c) a1) as H2.
    destruct (surface_nodes (runs c st) (events c) a1) as [a2 l2].
    specialize (IH (runs c st) (clear_first_name a2)).
    cbn [log final fst snd seen_ids clear_first_name] in *.
    rewrite Hs in H2. intros mid H.
    assert (Hl1 : forall mid, mid ∈ seen_ids a ->
                    mid ∈ seen_ids a \/ mid ∈ surfaced_ids l1) by auto.
    apply (grows_exact_app _ _ _ _ _ Hl1
             (grows_exact_app _ _ _ _ _ H2 IH) mid H).
  - intros mid H. apply (IH (runs c st) (clear_first_name a) mid H).
Qed.

(** X14. On a stream whose events each name a node, the identifier of every
    message of every update event, as read when that event is yielded, is
    surfaced during the invocation. *)
Theorem every_identifier_surfaced prior pre c post st name nd r :
  names_a_node (pre ++ c :: post) ->
  is_update c = true -> In (name, nd) (events c) -> In r (messages nd) ->
  msg_id (store_after (pre ++ [c]) st r) ∈
    surfaced_ids (log (predict_stream_run prior (pre ++ c :: post) st)).
Proof.
  intros Hwf Hup Hnd Hr. unfold predict_stream_run.
  set (a0 := mkAdapter true ∅ 0 prior).
  assert (Hpre : names_a_node pre) by (apply Forall_app in Hwf; tauto).
  assert (Htail : names_a_node (c :: post)) by (apply Forall_app in Hwf; tauto).
  destruct (stream_loop_exhausted pre st a0 Hpre) as (Ho & _ & _).
  destruct (stream_loop_app pre (c :: post) st a0 Ho) as (_ & Hf & _).
  pose proof (stream_loop_exact (pre ++ c :: post) st a0) as Hex.
  rewrite Hf in Hex. rewrite (stream_loop_store pre st a0 Ho) in Hex.
  set (a1 := final (stream_loop pre st a0)) in *.
  unfold store_after. rewrite fold_left_app. cbn [fold_left].
  fold (store_after pre st) in *. set (stp := store_after pre st) in *.
  assert (Hin : msg_id (runs c stp r) ∈
                seen_ids (final (stream_loop (c :: post) stp a1))).
  { cbn [stream_loop]. unfold is_update in Hup. rewrite Hup.
    destruct (announce a1 c) as [[a2 l2]|] eqn:Ha.
    2:{ apply announce_none in Ha. inversion Htail; subst. contradiction. }
    pose proof (surface_nodes_covers (runs c stp) (events c) a2 name nd r Hnd
                  (proj2 (list_elem_of_In _ _) Hr)) as Hc.
    destruct (surface_nodes (runs c stp) (events c) a2) as [a3 l3].
    pose proof (stream_loop_grows post (runs c stp) (clear_first_name a3))
      as (Hsub & _).
    cbn [final fst seen_ids clear_first_name] in *. set_solver. }
  destruct (Hex _ Hin) as [H | H]; [|exact H].
  cbn [a0 seen_ids] in H. set_solver.
Qed.

Lemma every_identifier_surfaced_witness :
  names_a_node ([] ++ mkChunk (fun st => st) "updates" [("supervisor", sample_update)]
                   :: [mkChunk (fun st => st) "updates"
                         [("formatter", mkNodeData [0; 1; 2; 3] None)]]) /\
  is_update (mkChunk (fun st => st) "updates" [("supervisor", sample_update)]) = true /\
  In ("supervisor", sample_update)
    (events (mkChunk (fun st => st) "updates" [("supervisor", sample_update)])) /\
  In 2 (messages sample_update) /\
  msg_id (store_after
            ([] ++ [mkChunk (fun st => st) "updates" [("supervisor", sample_update)]])
            sample_store 2) ∈
    surfaced_ids
      (log (predict_stream_run None
              ([] ++ mkChunk (fun st => st) "updates" [("supervisor", sample_update)]
                 :: [mkChunk (fun st => st) "updates"
                       [("formatter", mkNodeData [0; 1; 2; 3] None)]])
              sample_store)).
Proof.
  assert (H1 : names_a_node
    ([] ++ mkChunk (fun st => st) "updates" [("supervisor", sample_update)]
        :: [mkChunk (fun st => st) "updates"
              [("formatter", mkNodeData [0; 1; 2; 3] None)]])).
  { unfold names_a_node. repeat constructor; discriminate. }
  assert (H3 : In ("supervisor", sample_update)
    (events (mkChunk (fun st => st) "updates" [("supervisor", sample_update)])))
    by (left; reflexivity).
  assert (H4 : In 2 (messages sample_update)) by (simpl; auto).
  split; [exact H1 |]. split; [reflexivity |]. split; [exact H3 |].
  split; [exact H4 |].
  exact (every_identifier_surfaced None []
           (mkChunk (fun st => st) "updates" [("supervisor", sample_update)])
           [mkChunk (fun st => st) "updates"
              [("formatter", mkNodeData [0; 1; 2; 3] None)]]
           sample_store "supervisor" sample_update 2 H1 eq_refl H3 H4).
Defined.

(* ------------------------------------------------------------------ *)
(** ** The formatter's event yields nothing *)

Lemma format_final_response_keeps_ids st state r :
  msg_id (fst (format_final_response st state) r) = msg_id (st r).
Proof.
  unfold format_final_response. cbn [fst].
  destruct (last_ai_message st (messages state)) as [r0|]; [|reflexivity].
  destruct (content (st r0)); [reflexivity |].
  unfold set_content. destruct (r =? r0); reflexivity.
Qed.

(** X17. When every message the formatter returns has its identifier among the
    messages of the supervisor's update, the formatter's event yields
    nothing: the stream is the one the supervisor's event alone gives. *)
Theorem formatter_event_yields_nothing prior supervisor update state st0 :
  (forall r, In r (messages state) ->
     exists r', In r' (messages update) /\
                msg_id (supervisor st0 r') = msg_id (supervisor st0 r)) ->
  predict_stream prior (supervisor_with_formatter supervisor update state) st0 =
  predict_stream prior (supervisor_only supervisor update) st0.
Proof.
  intros H. unfold predict_stream. f_equal. f_equal.
  destruct (workflow_run prior supervisor update state st0)
    as (a1 & Hseen & Hlog & _).
  rewrite Hlog. clear Hlog.
  set (st1 := supervisor st0) in *.
  set (a0 := mkAdapter true ∅ 0 (Some update)) in *.
  rewrite (surface_messages_all_seen _ (messages state) a1).
  2:{ intros r Hr. rewrite format_final_response_keeps_ids.
      destruct (H r (proj1 (list_elem_of_In _ _) Hr)) as (r' & Hr' & Hid).
      rewrite Hseen. fold st1 in Hid. rewrite <- Hid.
      apply surface_messages_covers, list_elem_of_In, Hr'. }
  cbn [snd]. rewrite app_nil_r.
  unfold predict_stream_run, supervisor_only.
  cbn [stream_loop runs event_name events announce first_name surface_nodes
       messages seen_ids uuids _final_state].
  change (String.eqb "updates" "updates") with true. cbn iota.
  fold st1. fold a0.
  destruct (surface_messages st1 (messages update) a0) as [a2 l1].
  cbn [log snd app]. rewrite !app_nil_r. reflexivity.
Qed.

Lemma formatter_event_yields_nothing_witness :
  (forall r, In r (messages sample_update) ->
     exists r', In r' (messages sample_update) /\
                msg_id ((fun st : store => st) sample_store r') =
                msg_id ((fun st : store => st) sample_store r)) /\
  predict_stream None
    (supervisor_with_formatter (fun st => st) sample_update sample_update)
    sample_store =
  predict_stream None (supervisor_only (fun st => st) sample_update) sample_store.
Proof.
  assert (H : forall r, In r (messages sample_update) ->
     exists r', In r' (messages sample_update) /\
                msg_id ((fun st : store => st) sample_store r') =
                msg_id ((fun st : store => st) sample_store r)).
  { intros r Hr. exists r. split; [exact Hr | reflexivity]. }
  split; [exact H |].
  exact (formatter_event_yields_nothing None (fun st => st) sample_update
           sample_update sample_store H).
Defined.

(* ------------------------------------------------------------------ *)
(** ** End to end on the compiled graph *)

(** X18. A question answered without tool calls: when the supervisor's update
    holds the user's message and one assistant message with text and no
    tool call, [predict] on the compiled graph returns exactly one text
    item, carrying the assistant's text as the supervisor left it, and an
    empty file mapping. *)
Theorem simple_question_end_to_end
    prior supervisor st0 rq ra supervisor_files custom_inputs :
  let st1 := supervisor st0 in
  let update := mkNodeData [rq; ra] supervisor_files in
  msg_type (st1 rq) = "human" -> msg_type (st1 ra) = "ai" ->
  content (st1 ra) <> "" -> tool_calls (st1 ra) = [] ->
  msg_id (st1 rq) <> msg_id (st1 ra) ->
  exists resp i,
    predict prior (supervisor_with_formatter supervisor update update) st0
      custom_inputs = Some resp /\
    output resp = [text_output_item (content (st1 ra)) i] /\
    custom_outputs resp !! "files" = Some (PyFiles ∅).
Proof.
  intros st1 update Hq Ha Hc Hcalls Hne.
  pose proof (compiled_graph_names_a_node supervisor update update) as Hwf.
  destruct (stream_loop_exhausted _ st0 (mkAdapter true ∅ 0 prior) Hwf)
    as (Ho & Hfin & _).
  pose proof (stream_loop_grows (supervisor_with_formatter supervisor update update)
                st0 (mkAdapter true ∅ 0 prior)) as (_ & _ & _ & Hok).
  destruct (workflow_run prior supervisor update update st0)
    as (a1 & Hseen & Hlog & _).
  fold st1 in Hseen, Hlog.
  set (a0 := mkAdapter true ∅ 0 (Some update)) in *.
  assert (Hfirst : exists i a',
            surface_messages st1 (messages update) a0 =
            (a', [Surfaced (msg_id (st1 rq)) [];
                  Surfaced (msg_id (st1 ra))
                    [output_item_done (text_output_item (content (st1 ra)) i)]])).
  { cbn [update messages surface_messages a0 seen_ids uuids first_name
         _final_state].
    rewrite bool_decide_eq_false_2 by set_solver.
    unfold _langchain_to_responses at 1. rewrite Hq.
    change (String.eqb "human" "ai") with false.
    change (String.eqb "human" "tool") with false. cbn iota.
    rewrite bool_decide_eq_false_2 by set_solver.
    unfold _langchain_to_responses. rewrite Ha, Hcalls.
    change (String.eqb "ai" "ai") with true. cbn iota.
    destruct (content (st1 ra)) as [|c0 s0]; [contradiction |].
    destruct (id_or_uuid (st1 ra) 0) as [i n1].
    cbn [function_call_items app map]. eauto. }
  destruct Hfirst as (i & a' & Hfirst).
  assert (Hsecond : surface_messages
                      (fst (format_final_response st1 update)) (messages update) a1
                    = (a1, [])).
  { apply surface_messages_all_seen. intros r Hr.
    rewrite format_final_response_keeps_ids, Hseen.
    apply surface_messages_covers, Hr. }
  rewrite Hfirst, Hsecond in Hlog. cbn [snd app] in Hlog.
  unfold predict. unfold predict_stream_run in *.
  rewrite Ho, Hfin. eexists. exists i. split; [reflexivity |].
  cbn [output custom_outputs]. split.
  - rewrite filter_all by (apply yielded_events_done, Hok).
    rewrite Hlog. reflexivity.
  - rewrite lookup_insert_eq. reflexivity.
Qed.

Lemma simple_question_end_to_end_witness :
  msg_type (sample_store 0) = "human" /\
  msg_type (sample_store 3) = "ai" /\
  content (sample_store 3) <> "" /\ tool_calls (sample_store 3) = [] /\
  msg_id (sample_store 0) <> msg_id (sample_store 3) /\
  exists resp i,
    predict None
      (supervisor_with_formatter (fun st => st)
         (mkNodeData [0; 3] (Some {[ "/report.csv" := "account,dollars" ]}))
         (mkNodeData [0; 3] (Some {[ "/report.csv" := "account,dollars" ]})))
      sample_store None = Some resp /\
    output resp = [text_output_item (content (sample_store 3)) i] /\
    custom_outputs resp !! "files" = Some (PyFiles ∅).
Proof.
  assert (H3 : content (sample_store 3) <> "") by discriminate.
  assert (H5 : msg_id (sample_store 0) <> msg_id (sample_store 3)) by discriminate.
  split; [reflexivity |]. split; [reflexivity |]. split; [exact H3 |].
  split; [reflexivity |]. split; [exact H5 |].
  exact (simple_question_end_to_end None (fun st => st) sample_store 0 3
           (Some {[ "/report.csv" := "account,dollars" ]}) None
           eq_refl eq_refl H3 eq_refl H5).
Defined.
